(** * partfs: partitions of a disk image presented as files

    Shallow embedding of [partfs.c] (the full-featured variant: getattr,
    readdir, open, lseek, read, write) together with the small part of the
    C library, of POSIX file I/O and of libfdisk that the code calls.

    Conventions.
    - C integers are [Z]; every conversion the C code performs is written
      out with [wrap_unsigned] / [wrap_signed] (LP64: [int] is 32 bits,
      [size_t], [ssize_t] and [off_t] are 64 bits).
    - A C string is the Rocq [string] of its characters before the
      terminating NUL.
    - A function returning a negative errno returns that [Z]. *)

From Stdlib Require Import ZArith Lia List Ascii String Bool.
From stdpp Require Import base numbers list strings gmap.

Local Open Scope Z_scope.

(** ** Machine integers and errno values *)

Module C.

Definition wrap_unsigned (bits z : Z) : Z := z mod 2 ^ bits.

Definition wrap_signed (bits z : Z) : Z :=
  (z + 2 ^ (bits - 1)) mod 2 ^ bits - 2 ^ (bits - 1).

Definition to_int (z : Z) : Z := wrap_signed 32 z.
Definition to_size_t (z : Z) : Z := wrap_unsigned 64 z.
Definition to_ssize_t (z : Z) : Z := wrap_signed 64 z.
Definition to_off_t (z : Z) : Z := wrap_signed 64 z.
Definition to_uint64 (z : Z) : Z := wrap_unsigned 64 z.

Definition INT_MAX : Z := 2 ^ 31 - 1.
Definition SIZE_MAX : Z := 2 ^ 64 - 1.
Definition SSIZE_MAX : Z := 2 ^ 63 - 1.
Definition OFF_MAX : Z := 2 ^ 63 - 1.

Definition ENOENT : Z := 2.
Definition EIO : Z := 5.
Definition EBADF : Z := 9.
Definition ENOMEM : Z := 12.
Definition EINVAL : Z := 22.
Definition EFBIG : Z := 27.

(** [MIN] of <sys/param.h>, [(((a)<(b))?(a):(b))], at the one type it is
    used at: [a] is an [off_t], [b] a [size_t].  The usual arithmetic
    conversions turn [a] into an unsigned 64-bit value, both for the
    comparison and for the result. *)
Definition MIN (a b : Z) : Z :=
  if to_size_t a <? b then to_size_t a else b.

Definition strlen (s : string) : Z := Z.of_nat (String.length s).

End C.

(** ** The C library's [sscanf], for the directives partfs uses

    ISO C 7.21.6.2.  An ordinary character of the format must match the next
    input character.  [%zu] skips white space, then takes the longest
    sequence that is an optionally signed run of decimal digits (the subject
    sequence of [strtoul] in base 10) and converts it as [strtoul] does: a
    value that does not fit is [SIZE_MAX], a minus sign negates in unsigned
    arithmetic.  [%n] stores the number of characters consumed so far, as an
    [int], and is not counted in the return value. *)

Module Scanf.

Inductive directive : Type :=
| Lit (c : ascii)
| Conv_zu
| Conv_n.

Definition EOF : Z := -1.

Definition code (c : ascii) : Z := Z.of_N (N_of_ascii c).

(** [isspace] in the C locale: space, \t, \n, \v, \f, \r. *)
Definition isspace (c : ascii) : bool :=
  (code c =? 32) || ((9 <=? code c) && (code c <=? 13)).

Definition isdigit (c : ascii) : bool :=
  (48 <=? code c) && (code c <=? 57).

Definition digit_value (c : ascii) : Z := code c - 48.

Fixpoint skip_space (s : string) (k : Z) : string * Z :=
  match s with
  | String c r => if isspace c then skip_space r (k + 1) else (s, k)
  | EmptyString => (s, k)
  end.

(** The digits of the subject sequence: accumulated magnitude, number of
    digits taken, and the input that is left. *)
Fixpoint scan_digits (s : string) (acc k : Z) : Z * Z * string :=
  match s with
  | String c r =>
      if isdigit c then scan_digits r (10 * acc + digit_value c) (k + 1)
      else (acc, k, s)
  | EmptyString => (acc, k, s)
  end.

Definition strtoul_value (neg : bool) (m : Z) : Z :=
  if C.SIZE_MAX <? m then C.SIZE_MAX
  else if neg then C.to_size_t (- m) else m.

Inductive conv_result : Type :=
| InputFailure
| MatchFailure
| Matched (v : Z) (k : Z) (rest : string).

Definition scan_sign (s : string) : bool * string * Z :=
  match s with
  | String c r =>
      if Ascii.eqb c "+" then (false, r, 1)
      else if Ascii.eqb c "-" then (true, r, 1)
      else (false, s, 0)
  | EmptyString => (false, s, 0)
  end.

Definition scan_zu (s : string) : conv_result :=
  let '(s1, k) := skip_space s 0 in
  match s1 with
  | EmptyString => InputFailure
  | _ =>
      let '(neg, s2, ks) := scan_sign s1 in
      let '(m, kd, rest) := scan_digits s2 0 0 in
      if kd =? 0 then MatchFailure
      else Matched (strtoul_value neg m) (k + ks + kd) rest
  end.

(** The arguments receiving [%zu] and [%n]; [None] is a variable that was
    never stored to. *)
Record outputs : Type := { arg_n : option Z; arg_c : option Z }.

Fixpoint run (fmt : list directive) (input : string)
    (consumed assigned : Z) (out : outputs) : Z * outputs :=
  match fmt with
  | [] => (assigned, out)
  | Lit c :: fmt' =>
      match input with
      | EmptyString => (if assigned =? 0 then EOF else assigned, out)
      | String a rest =>
          if Ascii.eqb a c then run fmt' rest (consumed + 1) assigned out
          else (assigned, out)
      end
  | Conv_zu :: fmt' =>
      match scan_zu input with
      | InputFailure => (if assigned =? 0 then EOF else assigned, out)
      | MatchFailure => (assigned, out)
      | Matched v k rest =>
          run fmt' rest (consumed + k) (assigned + 1)
              {| arg_n := Some v; arg_c := arg_c out |}
      end
  | Conv_n :: fmt' =>
      run fmt' input consumed assigned
          {| arg_n := arg_n out; arg_c := Some (C.to_int consumed) |}
  end.

Definition literal (s : string) : list directive :=
  map Lit (list_ascii_of_string s).

Definition sscanf (input : string) (fmt : list directive) : Z * outputs :=
  run fmt input 0 0 {| arg_n := None; arg_c := None |}.

(** [%zu] of the printf family: the decimal digits of [n], most
    significant first, no sign and no leading zero.  Twenty digits hold
    every 64-bit value. *)
Definition digit_char (d : Z) : ascii := ascii_of_N (Z.to_N (48 + d)).

Fixpoint print_digits (fuel : nat) (n : Z) (acc : string) : string :=
  match fuel with
  | O => acc
  | S fuel' =>
      let acc' := String (digit_char (n mod 10)) acc in
      if n / 10 =? 0 then acc' else print_digits fuel' (n / 10) acc'
  end.

Definition print_zu (n : Z) : string := print_digits 20 n EmptyString.

Fixpoint string_take (k : nat) (s : string) : string :=
  match k, s with
  | S k', String c r => String c (string_take k' r)
  | _, _ => EmptyString
  end.

(** [snprintf(buf, size, ...)] keeps at most [size - 1] characters. *)
Definition snprintf (size : nat) (formatted : string) : string :=
  string_take (size - 1) formatted.

End Scanf.

(** ** Name codec *)

Definition PARTFS_NAME_PREFIX : string := "part_".

(** The format ["/" PARTFS_NAME_PREFIX "%zu%n"]. *)
Definition partfs_path_format : list Scanf.directive :=
  Scanf.literal ("/" +:+ PARTFS_NAME_PREFIX) ++ [Scanf.Conv_zu; Scanf.Conv_n].

Definition __partfs_parse_path (path : string) : Z :=
  match Scanf.sscanf path partfs_path_format with
  | (r, {| Scanf.arg_n := Some n; Scanf.arg_c := Some c |}) =>
      if (r =? 1) && (c =? C.to_int (C.strlen path))
      then C.to_ssize_t n else -1
  | _ => -1
  end.

(** ** libfdisk, as partfs uses it

    The partition table is parsed once, when the device is assigned to the
    context; partfs only queries it.  A table is the ordered list of its
    partitions. [fdisk_get_partition] leaves the caller's pointer [NULL]
    ([None]) when the table has no partition of that number. *)

Module Fdisk.

Record fdisk_partition : Type := {
  pa_partno : Z;          (* size_t *)
  pa_start : Z;           (* fdisk_sector_t, in sectors *)
  pa_size : option Z      (* fdisk_sector_t, in sectors; None: no size *)
}.

Record fdisk_context : Type := {
  cxt_sector_size : Z;    (* unsigned long *)
  cxt_table : list fdisk_partition
}.

Definition fdisk_get_sector_size (ctx : fdisk_context) : Z :=
  cxt_sector_size ctx.

Definition fdisk_get_partition (ctx : fdisk_context) (n : Z)
    : option fdisk_partition :=
  find (fun p => pa_partno p =? n) (cxt_table ctx).

Definition fdisk_get_partitions (ctx : fdisk_context)
    : list fdisk_partition :=
  cxt_table ctx.

(** [return pa && !FDISK_IS_UNDEF(pa->size)]: false on [NULL]. *)
Definition fdisk_partition_has_size (pa : option fdisk_partition) : bool :=
  match pa with
  | Some p => match pa_size p with Some _ => true | None => false end
  | None => false
  end.

(** [return pa->size] and [return pa->start]: both dereference [pa], so
    they have no result ([None]) on [NULL]. *)
Definition fdisk_partition_get_size (pa : option fdisk_partition)
    : option Z :=
  match pa with
  | Some p => pa_size p
  | None => None
  end.

Definition fdisk_partition_get_start (pa : option fdisk_partition)
    : option Z :=
  match pa with
  | Some p => Some (pa_start p)
  | None => None
  end.

Definition fdisk_partition_get_partno (p : fdisk_partition) : Z :=
  pa_partno p.

End Fdisk.

Import Fdisk.

(** The size of a partition in bytes; libfdisk's own function returns it in
    sectors.  The product is computed on unsigned 64-bit values and returned
    as an [off_t]. *)
Definition __fdisk_partition_get_size (ctx : fdisk_context)
    (pa : option fdisk_partition) : Z :=
  if fdisk_partition_has_size pa then
    match fdisk_partition_get_size pa with
    | Some sectors =>
        C.to_off_t (C.to_uint64 (sectors * fdisk_get_sector_size ctx))
    | None => 0
    end
  else 0.

(** ** [struct stat] *)

Record stat : Type := {
  st_dev : Z;
  st_ino : Z;
  st_mode : Z;
  st_nlink : Z;
  st_uid : Z;
  st_gid : Z;
  st_rdev : Z;
  st_size : Z;
  st_blksize : Z;
  st_blocks : Z;
  st_atime : Z;
  st_mtime : Z;
  st_ctime : Z
}.

Definition S_IFMT : Z := 0xF000.    (* 0170000 *)
Definition S_IFDIR : Z := 0x4000.   (* 0040000 *)
Definition S_IFREG : Z := 0x8000.   (* 0100000 *)
Definition S_IFBLK : Z := 0x6000.   (* 0060000 *)
Definition MODE_0755 : Z := 0x1ED.  (* 0755 *)

Definition S_ISDIR (m : Z) : bool := Z.land m S_IFMT =? S_IFDIR.

(** Populate a stat buffer: everything is zeroed, then mode, link count and
    size are set and ownership and time stamps are taken from the
    template. *)
Definition __partfs_stat (mode nlink size : Z) (tmpl : stat) : stat :=
  {| st_dev := 0; st_ino := 0;
     st_mode := mode;
     st_nlink := nlink;
     st_uid := st_uid tmpl;
     st_gid := st_gid tmpl;
     st_rdev := 0;
     st_size := size;
     st_blksize := 0; st_blocks := 0;
     st_atime := st_atime tmpl;
     st_mtime := st_mtime tmpl;
     st_ctime := st_ctime tmpl |}.

(** ** The mounted device *)

Record partfs_device : Type := {
  pdev_name : string;         (* absolute path to the device file *)
  pdev_ctx : fdisk_context;   (* partition context of the device file *)
  pdev_st : stat              (* stat information about the device file *)
}.

(** ** getattr *)

Definition partfs_getattr (pdev : partfs_device) (path : string)
    : Z * option stat :=
  if String.eqb path "/" then
    (0, Some (__partfs_stat (Z.lor S_IFDIR MODE_0755) 2 0 (pdev_st pdev)))
  else
    let n := __partfs_parse_path path in
    if n >=? 0 then
      let pa := fdisk_get_partition (pdev_ctx pdev) (C.to_size_t n) in
      (0, Some (__partfs_stat (st_mode (pdev_st pdev)) 1
                  (__fdisk_partition_get_size (pdev_ctx pdev) pa)
                  (pdev_st pdev)))
    else (- C.ENOENT, None).

(** ** readdir *)

(** A directory entry handed to the filler: a name and the stat buffer, or
    no buffer ([NULL]). *)
Definition dirent : Type := string * option stat.

Definition fill (buf : list dirent) (name : string) (st : option stat)
    : list dirent :=
  buf ++ [(name, st)].

(** [snprintf(num, sizeof(num), PARTFS_NAME_PREFIX "%zu", partno)] with
    [char num[16]]. *)
Definition partfs_name (partno : Z) : string :=
  Scanf.snprintf 16 (PARTFS_NAME_PREFIX +:+ Scanf.print_zu partno).

(** The loop [while (fdisk_table_next_partition(tb, it, &pa) == 0)] with a
    forward iterator: [it] is the part of the table not yet visited. *)
Fixpoint partfs_readdir_loop (pdev : partfs_device)
    (it : list fdisk_partition) (buf : list dirent) : list dirent :=
  match it with
  | pa :: it' =>
      let num := partfs_name (fdisk_partition_get_partno pa) in
      let st := __partfs_stat (st_mode (pdev_st pdev)) 1
                  (__fdisk_partition_get_size (pdev_ctx pdev) (Some pa))
                  (pdev_st pdev) in
      partfs_readdir_loop pdev it' (fill buf num (Some st))
  | [] => buf
  end.

Definition partfs_readdir (pdev : partfs_device) (path : string)
    (buf : list dirent) : Z * list dirent :=
  if String.eqb path "/" then
    let st := __partfs_stat (Z.lor S_IFDIR MODE_0755) 2 0 (pdev_st pdev) in
    let buf := fill buf "." (Some st) in
    let buf := fill buf ".." None in
    let tb := fdisk_get_partitions (pdev_ctx pdev) in
    (0, partfs_readdir_loop pdev tb buf)
  else (- C.ENOENT, buf).

(** ** The device file and its descriptors

    The contents of the device file are a sequence of bytes.  Every open
    descriptor has its own file offset and access mode.  The trace records
    the system calls made, in order. *)

Module Posix.

Definition O_RDONLY : Z := 0.
Definition O_WRONLY : Z := 1.
Definition O_RDWR : Z := 2.
Definition O_ACCMODE : Z := 3.
Definition O_TRUNC : Z := 0x200.    (* 01000 *)
Definition O_APPEND : Z := 0x400.   (* 02000 *)

Record open_file : Type := {
  of_pos : Z;
  of_flags : Z
}.

Definition readable (f : open_file) : bool :=
  let m := Z.land (of_flags f) O_ACCMODE in (m =? O_RDONLY) || (m =? O_RDWR).

Definition writable (f : open_file) : bool :=
  let m := Z.land (of_flags f) O_ACCMODE in (m =? O_WRONLY) || (m =? O_RDWR).

(** The descriptor was opened with [O_APPEND]. *)
Definition appending (f : open_file) : bool :=
  negb (Z.land (of_flags f) O_APPEND =? 0).

(** The flags of an open ask for [O_TRUNC]. *)
Definition truncating (flags : Z) : bool :=
  negb (Z.land flags O_TRUNC =? 0).

Inductive syscall : Type :=
| SysOpen (flags : Z)
| SysLseek (fd pos : Z)
| SysRead (fd count : Z)
| SysWrite (fd count : Z).

Record world : Type := {
  w_file : list Byte.byte;          (* contents of the device file *)
  w_fds : gmap Z open_file;         (* descriptor table *)
  w_errno : Z;
  w_trace : list syscall;
  w_open_error : option Z;          (* errno open(2) fails with, if any *)
  w_heap_exhausted : bool           (* malloc returns NULL *)
}.

Definition set_errno (e : Z) (w : world) : world :=
  {| w_file := w_file w; w_fds := w_fds w; w_errno := e;
     w_trace := w_trace w; w_open_error := w_open_error w;
     w_heap_exhausted := w_heap_exhausted w |}.

Definition set_fd (fd : Z) (f : open_file) (w : world) : world :=
  {| w_file := w_file w; w_fds := <[fd := f]> (w_fds w);
     w_errno := w_errno w; w_trace := w_trace w;
     w_open_error := w_open_error w;
     w_heap_exhausted := w_heap_exhausted w |}.

Definition set_file (data : list Byte.byte) (w : world) : world :=
  {| w_file := data; w_fds := w_fds w; w_errno := w_errno w;
     w_trace := w_trace w; w_open_error := w_open_error w;
     w_heap_exhausted := w_heap_exhausted w |}.

Definition log (c : syscall) (w : world) : world :=
  {| w_file := w_file w; w_fds := w_fds w; w_errno := w_errno w;
     w_trace := w_trace w ++ [c]; w_open_error := w_open_error w;
     w_heap_exhausted := w_heap_exhausted w |}.

(** The lowest descriptor not in use. *)
Fixpoint lowest_free (fuel : nat) (fd : Z) (fds : gmap Z open_file) : Z :=
  match fuel with
  | O => fd
  | S fuel' =>
      match fds !! fd with
      | Some _ => lowest_free fuel' (fd + 1) fds
      | None => fd
      end
  end.

(** [open(pdev->name, flags)]: the device file is the one file of the
    world, a regular file (a disk image).  An open that succeeds with
    [O_TRUNC] among the flags cuts the file to length 0, whatever the
    access mode (Linux; an open that may not write the file fails).  A new
    descriptor starts at offset 0 and keeps the flags. *)
Definition sys_open (flags : Z) (w : world) : Z * world :=
  let w := log (SysOpen flags) w in
  match w_open_error w with
  | Some e => (-1, set_errno e w)
  | None =>
      let w := set_file (if truncating flags then [] else w_file w) w in
      let fd := lowest_free (size (w_fds w)) 0 (w_fds w) in
      (fd, set_fd fd {| of_pos := 0; of_flags := flags |} w)
  end.

(** [lseek(fd, pos, SEEK_SET)]. *)
Definition sys_lseek (fd pos : Z) (w : world) : Z * world :=
  let w := log (SysLseek fd pos) w in
  match w_fds w !! fd with
  | None => (-1, set_errno C.EBADF w)
  | Some f =>
      if pos <? 0 then (-1, set_errno C.EINVAL w)
      else (pos, set_fd fd {| of_pos := pos; of_flags := of_flags f |} w)
  end.

(** [read(fd, buf, count)]: the bytes from the file offset on, as many as
    the file has, at most [count]; the offset advances past them.  The
    result is the return value and the bytes stored in [buf]. *)
Definition sys_read (fd count : Z) (w : world)
    : Z * list Byte.byte * world :=
  let w := log (SysRead fd count) w in
  match w_fds w !! fd with
  | None => (-1, [], set_errno C.EBADF w)
  | Some f =>
      if readable f then
        let data := take (Z.to_nat count) (drop (Z.to_nat (of_pos f)) (w_file w)) in
        let n := Z.of_nat (length data) in
        (n, data,
         set_fd fd {| of_pos := of_pos f + n; of_flags := of_flags f |} w)
      else (-1, [], set_errno C.EBADF w)
  end.

(** The file after [data] is stored at offset [pos]; a gap between the
    end of the file and [pos] reads as zero bytes.  Storing nothing
    changes nothing. *)
Definition write_at (pos : nat) (data file : list Byte.byte)
    : list Byte.byte :=
  match data with
  | [] => file
  | _ =>
      take pos file ++ replicate (pos - length file) Byte.x00
        ++ data ++ drop (pos + length data) file
  end.

(** [write(fd, buf, count)]: the first [count] bytes of [buf] go to the
    file at the file offset, which advances past them.  On a descriptor
    opened with [O_APPEND] the file offset is first set to the end of the
    file, so that the bytes are appended wherever the descriptor was left
    by a seek; a write of no bytes has no effect at all. *)
Definition sys_write (fd : Z) (buf : list Byte.byte) (count : Z) (w : world)
    : Z * world :=
  let w := log (SysWrite fd count) w in
  match w_fds w !! fd with
  | None => (-1, set_errno C.EBADF w)
  | Some f =>
      if writable f then
        let data := take (Z.to_nat count) buf in
        let n := Z.of_nat (length data) in
        let pos :=
          if appending f && (0 <? n) then Z.of_nat (length (w_file w))
          else of_pos f in
        (n,
         set_fd fd {| of_pos := pos + n; of_flags := of_flags f |}
           (set_file (write_at (Z.to_nat pos) data (w_file w)) w))
      else (-1, set_errno C.EBADF w)
  end.

End Posix.

Import Posix.

(** ** Sessions: open, lseek, read, write *)

(** State of one open of a partition: the descriptor on the device file and
    the start and size of the partition in bytes, set by open and not
    modified after. *)
Record partfs_file : Type := {
  pfi_desc : Z;     (* int *)
  pfi_start : Z;    (* off_t *)
  pfi_size : Z      (* off_t *)
}.

(** What a call of [partfs_open] does: return [err], having stored the
    session in [fi->fh] or not, or dereference a null partition pointer. *)
Inductive open_outcome : Type :=
| OpenRet (err : Z) (fh : option partfs_file) (w : world)
| OpenNullDeref (w : world).

Definition partfs_open (pdev : partfs_device) (path : string) (flags : Z)
    (w : world) : open_outcome :=
  if w_heap_exhausted w then OpenRet (- C.ENOMEM) None w
  else
    let '(desc, w1) := sys_open flags w in
    if desc <? 0 then OpenRet (- w_errno w1) None w1
    else
      let n := __partfs_parse_path path in
      let pa := fdisk_get_partition (pdev_ctx pdev) (C.to_size_t n) in
      match fdisk_partition_get_start pa with
      | None => OpenNullDeref w1
      | Some sectors =>
          let start :=
            C.to_off_t
              (C.to_uint64 (fdisk_get_sector_size (pdev_ctx pdev) * sectors)) in
          let size := __fdisk_partition_get_size (pdev_ctx pdev) pa in
          OpenRet 0
            (Some {| pfi_desc := desc; pfi_start := start; pfi_size := size |})
            w1
      end.

(** Seek to offset [off] of the partition, that is to [start + off] of the
    device file.  Returns 0 or a negative errno. *)
Definition partfs_lseek (pfi : partfs_file) (off : Z) (w : world)
    : Z * world :=
  if (off >=? 0) && (off <=? pfi_size pfi) then
    let '(r, w1) :=
      sys_lseek (pfi_desc pfi) (C.to_off_t (pfi_start pfi + off)) w in
    (if r >=? 0 then 0 else - w_errno w1, w1)
  else (- C.EINVAL, w).

(** Returns the value returned to fuse, the bytes stored in [buf], and the
    world after the call. *)
Definition partfs_read (pfi : partfs_file) (len off : Z) (w : world)
    : Z * list Byte.byte * world :=
  let '(ret, w1) := partfs_lseek pfi off w in
  if ret =? 0 then
    let '(r, data, w2) :=
      sys_read (pfi_desc pfi) (C.MIN (pfi_size pfi - off) len) w1 in
    let ret := C.to_int r in
    (if ret <? 0 then - w_errno w2 else ret, data, w2)
  else (ret, [], w1).

Definition partfs_write (pfi : partfs_file) (buf : list Byte.byte)
    (len off : Z) (w : world) : Z * world :=
  let '(ret, w1) := partfs_lseek pfi off w in
  if off >=? 0 then
    if negb (ret =? 0) then (- C.EFBIG, w1)
    else
      let '(r, w2) :=
        sys_write (pfi_desc pfi) buf (C.MIN (pfi_size pfi - off) len) w1 in
      let ret := C.to_int r in
      (if ret <? 0 then - w_errno w2 else ret, w2)
  else (ret, w1).

(** ** Shapes of names, for stating what the parser accepts *)

Fixpoint string_forall (p : ascii -> bool) (s : string) : bool :=
  match s with
  | String c r => p c && string_forall p r
  | EmptyString => true
  end.

(** The number a run of decimal digits denotes, continuing from [acc]. *)
Fixpoint digits_value (ds : string) (acc : Z) : Z :=
  match ds with
  | String c r => digits_value r (10 * acc + Scanf.digit_value c)
  | EmptyString => acc
  end.

Definition is_sign (sg : string) : Prop := sg = "" \/ sg = "+" \/ sg = "-".

Definition head_is_not (p : ascii -> bool) (s : string) : Prop :=
  match s with
  | String c _ => p c = false
  | EmptyString => True
  end.

(** What the format ["/part_%zu"] consumes: the prefix, white space, a
    sign, digits. *)
Definition scanned_name (path ws sg ds : string) : Prop :=
  path = "/part_" +:+ ws +:+ sg +:+ ds /\
  string_forall Scanf.isspace ws = true /\
  is_sign sg /\
  ds <> "" /\
  string_forall Scanf.isdigit ds = true.

(** The value [%zu] stores for a sign and a run of digits. *)
Definition scanned_value (sg ds : string) : Z :=
  Scanf.strtoul_value (String.eqb sg "-") (digits_value ds 0).

Fixpoint strip_prefix (p s : string) : option string :=
  match p, s with
  | EmptyString, _ => Some s
  | String a p', String b s' => if Ascii.eqb a b then strip_prefix p' s' else None
  | String _ _, EmptyString => None
  end.

(** The names of the naming convention, read strictly: the prefix followed
    by one or more decimal digits and nothing else. *)
Definition prefix_then_digits (path : string) : bool :=
  match strip_prefix "/part_" path with
  | Some ds => negb (String.eqb ds "") && string_forall Scanf.isdigit ds
  | None => false
  end.

(** The file name of partition [n]: the prefix and the number in decimal
    without sign or leading zeros. *)
Definition canonical_path (n : Z) : string :=
  "/" +:+ PARTFS_NAME_PREFIX +:+ Scanf.print_zu n.

(** ** A small device for concrete runs

    Sixteen bytes, sectors of two bytes, one partition numbered 0 that
    starts at sector 2 and is 4 sectors long: bytes 4 to 11. *)

Definition demo_file : list Byte.byte :=
  [Byte.x10; Byte.x11; Byte.x12; Byte.x13; Byte.x14; Byte.x15; Byte.x16;
   Byte.x17; Byte.x18; Byte.x19; Byte.x1a; Byte.x1b; Byte.x1c; Byte.x1d;
   Byte.x1e; Byte.x1f].

Definition demo_open_file : open_file :=
  {| of_pos := 0; of_flags := O_RDWR |}.

Definition demo_world : world :=
  {| w_file := demo_file;
     w_fds := {[ 3 := demo_open_file ]};
     w_errno := 0;
     w_trace := [];
     w_open_error := None;
     w_heap_exhausted := false |}.

Definition demo_session : partfs_file :=
  {| pfi_desc := 3; pfi_start := 4; pfi_size := 8 |}.

Definition demo_partition : fdisk_partition :=
  {| pa_partno := 0; pa_start := 2; pa_size := Some 4 |}.

Definition demo_context : fdisk_context :=
  {| cxt_sector_size := 2; cxt_table := [demo_partition] |}.

(** The stat of a disk image: a regular file, mode 0644. *)
Definition demo_image_stat : stat :=
  {| st_dev := 2049; st_ino := 77; st_mode := Z.lor S_IFREG 0x1A4;
     st_nlink := 1; st_uid := 1000; st_gid := 100; st_rdev := 0;
     st_size := 16; st_blksize := 4096; st_blocks := 8;
     st_atime := 1500000001; st_mtime := 1500000002;
     st_ctime := 1500000003 |}.

(** The stat of a block device such as /dev/sdb: mode 0660. *)
Definition demo_blockdev_stat : stat :=
  {| st_dev := 6; st_ino := 321; st_mode := Z.lor S_IFBLK 0x1B0;
     st_nlink := 1; st_uid := 0; st_gid := 6; st_rdev := 2064;
     st_size := 0; st_blksize := 4096; st_blocks := 0;
     st_atime := 1500000001; st_mtime := 1500000002;
     st_ctime := 1500000003 |}.

Definition demo_device : partfs_device :=
  {| pdev_name := "/home/user/disk.image";
     pdev_ctx := demo_context;
     pdev_st := demo_image_stat |}.


(** ** release *)

(** [close(fd)].  The trace follows the data path (open, lseek, read,
    write); closing is seen in the descriptor table. *)
Definition sys_close (fd : Z) (w : world) : Z * world :=
  match w_fds w !! fd with
  | None => (-1, set_errno C.EBADF w)
  | Some _ =>
      (0, {| w_file := w_file w; w_fds := delete fd (w_fds w);
             w_errno := w_errno w; w_trace := w_trace w;
             w_open_error := w_open_error w;
             w_heap_exhausted := w_heap_exhausted w |})
  end.

(** What [fi->fh] points to: the [struct partfs_file] that [partfs_open]
    got from malloc, or a block that has been given back by [free]. *)
Inductive session_block : Type :=
| Allocated (pfi : partfs_file)
| Freed.

(** What a call of [partfs_release] does: return [ret], leaving the block
    behind [fi->fh] and the world as given, or read and free a block that
    is already freed. *)
Inductive release_outcome : Type :=
| ReleaseRet (ret : Z) (blk : session_block) (w : world)
| ReleaseUseAfterFree.

(** The descriptor is read out of the session, the session is freed, and
    the descriptor is closed; the error of close is returned although fuse
    ignores it.  [fi->fh] keeps pointing to the freed block. *)
Definition partfs_release (blk : session_block) (w : world)
    : release_outcome :=
  match blk with
  | Freed => ReleaseUseAfterFree
  | Allocated pfi =>
      let desc := pfi_desc pfi in
      let blk := Freed in
      let '(r, w1) := sys_close desc w in
      ReleaseRet (if r =? 0 then 0 else - w_errno w1) blk w1
  end.

(** ** Mounting: the device is opened once, before fuse runs

    What the host answers is given: [realpath] and [stat] fail with an errno
    or succeed, [fdisk_new_context] gives a context or [NULL], and
    [fdisk_assign_device] parses the partition table of the named file or
    returns a negative errno.  What the process holds is counted: path
    buffers handed out by [realpath], contexts, and devices assigned to a
    context. *)

Module Mount.

Record host : Type := {
  h_realpath : string -> positive + string;
  h_stat : string -> positive + stat;
  h_new_context : bool;
  h_assign_device : string -> positive + fdisk_context
}.

Record process : Type := {
  p_names : nat;       (* buffers from realpath not yet freed *)
  p_contexts : nat;    (* contexts not yet unreferenced *)
  p_assigned : nat;    (* devices assigned and not yet deassigned *)
  p_errno : Z
}.

(** [struct partfs_device] while it is set up: a member is [None] when it
    is [NULL] (name, ctx) or was never written (st). *)
Record device_slot : Type := {
  slot_name : option string;
  slot_ctx : option fdisk_context;
  slot_st : option stat
}.

Definition set_slot_name (name : option string) (pdev : device_slot)
    : device_slot :=
  {| slot_name := name; slot_ctx := slot_ctx pdev; slot_st := slot_st pdev |}.

Definition set_slot_ctx (ctx : option fdisk_context) (pdev : device_slot)
    : device_slot :=
  {| slot_name := slot_name pdev; slot_ctx := ctx; slot_st := slot_st pdev |}.

Definition set_slot_st (st : option stat) (pdev : device_slot)
    : device_slot :=
  {| slot_name := slot_name pdev; slot_ctx := slot_ctx pdev; slot_st := st |}.

(** [realpath(device, NULL)]: a malloc'ed buffer, or [NULL] and errno. *)
Definition realpath (h : host) (device : string) (p : process)
    : option string * process :=
  match h_realpath h device with
  | inl e =>
      (None, {| p_names := p_names p; p_contexts := p_contexts p;
                p_assigned := p_assigned p; p_errno := Z.pos e |})
  | inr name =>
      (Some name, {| p_names := S (p_names p); p_contexts := p_contexts p;
                     p_assigned := p_assigned p; p_errno := p_errno p |})
  end.

(** [free(ptr)]; nothing happens on [NULL]. *)
Definition free_name (name : option string) (p : process) : process :=
  match name with
  | Some _ =>
      {| p_names := Nat.pred (p_names p); p_contexts := p_contexts p;
         p_assigned := p_assigned p; p_errno := p_errno p |}
  | None => p
  end.

(** [stat(name, &st)]: 0 and the buffer filled, or -1 and errno. *)
Definition sys_stat (h : host) (name : string) (p : process)
    : Z * option stat * process :=
  match h_stat h name with
  | inl e =>
      (-1, None, {| p_names := p_names p; p_contexts := p_contexts p;
                    p_assigned := p_assigned p; p_errno := Z.pos e |})
  | inr st => (0, Some st, p)
  end.

(** A context that no device is assigned to yet. *)
Definition empty_context : fdisk_context :=
  {| cxt_sector_size := 512; cxt_table := [] |}.

Definition fdisk_new_context (h : host) (p : process)
    : option fdisk_context * process :=
  if h_new_context h then
    (Some empty_context,
     {| p_names := p_names p; p_contexts := S (p_contexts p);
        p_assigned := p_assigned p; p_errno := p_errno p |})
  else (None, p).

Definition fdisk_unref_context (p : process) : process :=
  {| p_names := p_names p; p_contexts := Nat.pred (p_contexts p);
     p_assigned := p_assigned p; p_errno := p_errno p |}.

(** [fdisk_assign_device(ctx, name, 1)]: 0 and the context now describes
    the partition table of the file, or a negative errno and the context
    as it was. *)
Definition fdisk_assign_device (h : host) (ctx : fdisk_context)
    (name : string) (p : process) : Z * fdisk_context * process :=
  match h_assign_device h name with
  | inl e => (- Z.pos e, ctx, p)
  | inr parsed =>
      (0, parsed,
       {| p_names := p_names p; p_contexts := p_contexts p;
          p_assigned := S (p_assigned p); p_errno := p_errno p |})
  end.

Definition fdisk_deassign_device (p : process) : process :=
  {| p_names := p_names p; p_contexts := p_contexts p;
     p_assigned := Nat.pred (p_assigned p); p_errno := p_errno p |}.

(** Initial open of the device file and parsing of the partitions.  The
    members of [pdev] are overwritten without being looked at. *)
Definition partfs_open_device (h : host) (device : string)
    (pdev : device_slot) (p : process) : Z * device_slot * process :=
  let pdev := set_slot_ctx None (set_slot_name None pdev) in
  let '(name, p) := realpath h device p in
  let pdev := set_slot_name name pdev in
  match name with
  | None => (- p_errno p, pdev, p)
  | Some path =>
      let '(r, st, p) := sys_stat h path p in
      let pdev :=
        match st with Some _ => set_slot_st st pdev | None => pdev end in
      let err := if r =? 0 then 0 else - p_errno p in
      let '(err, pdev, p) :=
        if err =? 0 then
          let '(ctx, p) := fdisk_new_context h p in
          let pdev := set_slot_ctx ctx pdev in
          match ctx with
          | None => (- C.ENOMEM, pdev, p)
          | Some c =>
              let '(err, c, p) := fdisk_assign_device h c path p in
              if err =? 0 then (err, set_slot_ctx (Some c) pdev, p)
              else (err, set_slot_ctx None pdev, fdisk_unref_context p)
          end
        else (err, pdev, p) in
      if err =? 0 then (err, pdev, p)
      else (err, set_slot_name None pdev, free_name (slot_name pdev) p)
  end.

(** Called just before fuse exits, on the device [partfs_open_device] set
    up: the context is never [NULL] there. *)
Definition partfs_destroy (pdev : device_slot) (p : process) : process :=
  let p := fdisk_deassign_device p in
  let p := fdisk_unref_context p in
  free_name (slot_name pdev) p.

(** The device the fuse operations work on, once all members are set. *)
Definition mounted (pdev : device_slot) : option partfs_device :=
  match slot_name pdev, slot_ctx pdev, slot_st pdev with
  | Some name, Some ctx, Some st =>
      Some {| pdev_name := name; pdev_ctx := ctx; pdev_st := st |}
  | _, _, _ => None
  end.

End Mount.

(** ** The metadata-only variant (no open, read or write)

    Its getattr scans the path itself and keeps the number as a [size_t];
    partition entries get the fixed mode [S_IFREG | 0644]; its readdir
    answers any other path than the root with [EIO]. *)

Module Minimal.

Record partfs_device : Type := {
  pfsdev_ctx : fdisk_context;
  pfsdev_st : stat
}.

Definition MODE_0644 : Z := 0x1A4.  (* 0644 *)

Definition partfs_getattr (pfsdev : partfs_device) (path : string)
    : Z * option stat :=
  if String.eqb path "/" then
    (0, Some (__partfs_stat (Z.lor S_IFDIR MODE_0755) 2 0 (pfsdev_st pfsdev)))
  else
    match Scanf.sscanf path partfs_path_format with
    | (r, {| Scanf.arg_n := Some n; Scanf.arg_c := Some c |}) =>
        if (r =? 1) && (c =? C.to_int (C.strlen path)) then
          let pa := fdisk_get_partition (pfsdev_ctx pfsdev) n in
          (0, Some (__partfs_stat (Z.lor S_IFREG MODE_0644) 1
                      (__fdisk_partition_get_size (pfsdev_ctx pfsdev) pa)
                      (pfsdev_st pfsdev)))
        else (- C.ENOENT, None)
    | _ => (- C.ENOENT, None)
    end.

Fixpoint partfs_readdir_loop (pfsdev : partfs_device)
    (it : list fdisk_partition) (buf : list dirent) : list dirent :=
  match it with
  | pa :: it' =>
      let num := partfs_name (fdisk_partition_get_partno pa) in
      let st := __partfs_stat (Z.lor S_IFREG MODE_0644) 1
                  (__fdisk_partition_get_size (pfsdev_ctx pfsdev) (Some pa))
                  (pfsdev_st pfsdev) in
      partfs_readdir_loop pfsdev it' (fill buf num (Some st))
  | [] => buf
  end.

Definition partfs_readdir (pfsdev : partfs_device) (path : string)
    (buf : list dirent) : Z * list dirent :=
  if String.eqb path "/" then
    let st :=
      __partfs_stat (Z.lor S_IFDIR MODE_0755) 2 0 (pfsdev_st pfsdev) in
    let buf := fill buf "." (Some st) in
    let buf := fill buf ".." None in
    let tb := fdisk_get_partitions (pfsdev_ctx pfsdev) in
    (0, partfs_readdir_loop pfsdev tb buf)
  else (- C.EIO, buf).

End Minimal.

(** A host for concrete runs: the image is there and holds the demo
    table; nothing else exists. *)
Definition demo_host : Mount.host :=
  {| Mount.h_realpath := fun device =>
       if String.eqb device "disk.image" then inr "/home/user/disk.image"
       else inl 2%positive;
     Mount.h_stat := fun name =>
       if String.eqb name "/home/user/disk.image" then inr demo_image_stat
       else inl 2%positive;
     Mount.h_new_context := true;
     Mount.h_assign_device := fun name =>
       if String.eqb name "/home/user/disk.image" then inr demo_context
       else inl 2%positive |}.

Definition demo_process : Mount.process :=
  {| Mount.p_names := 0; Mount.p_contexts := 0; Mount.p_assigned := 0;
     Mount.p_errno := 0 |}.

Definition demo_slot : Mount.device_slot :=
  {| Mount.slot_name := None; Mount.slot_ctx := None;
     Mount.slot_st := None |}.

Definition demo_minimal_device : Minimal.partfs_device :=
  {| Minimal.pfsdev_ctx := demo_context;
     Minimal.pfsdev_st := demo_blockdev_stat |}.

(** A session whose descriptor is not open, and worlds in which descriptor
    3 is open for reading only or for writing only. *)
Definition demo_stale_session : partfs_file :=
  {| pfi_desc := 9; pfi_start := 4; pfi_size := 8 |}.

Definition demo_world_with (flags : Z) : world :=
  {| w_file := demo_file;
     w_fds := {[ 3 := {| of_pos := 0; of_flags := flags |} ]};
     w_errno := 0;
     w_trace := [];
     w_open_error := None;
     w_heap_exhausted := false |}.

(** The descriptor of the session is open in append mode. *)
Definition append_mode (pfi : partfs_file) (w : world) : bool :=
  match w_fds w !! pfi_desc pfi with
  | Some f => appending f
  | None => false
  end.

(** A stat record with its mode replaced, for comparing records up to the
    mode. *)
Definition with_mode (m : Z) (st : stat) : stat :=
  {| st_dev := st_dev st; st_ino := st_ino st;
     st_mode := m;
     st_nlink := st_nlink st;
     st_uid := st_uid st; st_gid := st_gid st;
     st_rdev := st_rdev st;
     st_size := st_size st;
     st_blksize := st_blksize st; st_blocks := st_blocks st;
     st_atime := st_atime st; st_mtime := st_mtime st;
     st_ctime := st_ctime st |}.

(** The device of the metadata-only variant that stands for the same
    device file. *)
Definition minimal_device (pdev : partfs_device) : Minimal.partfs_device :=
  {| Minimal.pfsdev_ctx := pdev_ctx pdev;
     Minimal.pfsdev_st := pdev_st pdev |}.

(** * Properties *)

(** ** Sample runs of the name parser *)

Example parse_part_0 : __partfs_parse_path "/part_0" = 0.
Proof. reflexivity. Qed.

Example parse_part_12 : __partfs_parse_path "/part_12" = 12.
Proof. reflexivity. Qed.

Example parse_part_0x : __partfs_parse_path "/part_0x" = -1.
Proof. reflexivity. Qed.

Example parse_part_007 : __partfs_parse_path "/part_007" = 7.
Proof. reflexivity. Qed.

Example parse_part_plus : __partfs_parse_path "/part_+7" = 7.
Proof. reflexivity. Qed.

Example parse_part_space : __partfs_parse_path "/part_ 7" = 7.
Proof. reflexivity. Qed.

Example parse_part_minus1 : __partfs_parse_path "/part_-1" = -1.
Proof. reflexivity. Qed.

Example parse_part_minus2 : __partfs_parse_path "/part_-2" = -2.
Proof. vm_compute. reflexivity. Qed.

Example parse_other : __partfs_parse_path "/foo" = -1.
Proof. reflexivity. Qed.

Example print_zu_1234 : Scanf.print_zu 1234 = "1234".
Proof. reflexivity. Qed.

Example print_zu_0 : Scanf.print_zu 0 = "0".
Proof. reflexivity. Qed.

(** ** Conversions that change nothing *)

Lemma to_int_id z : - 2 ^ 31 <= z <= C.INT_MAX -> C.to_int z = z.
Proof.
  unfold C.to_int, C.wrap_signed, C.INT_MAX. intros H.
  change (2 ^ (32 - 1)) with (2 ^ 31). 
  rewrite Z.mod_small by lia. lia.
Qed.

Lemma to_off_t_id z : - 2 ^ 63 <= z <= C.OFF_MAX -> C.to_off_t z = z.
Proof.
  unfold C.to_off_t, C.wrap_signed, C.OFF_MAX. intros H.
  change (2 ^ (64 - 1)) with (2 ^ 63).
  rewrite Z.mod_small by lia. lia.
Qed.

Lemma to_ssize_t_id z : - 2 ^ 63 <= z <= C.SSIZE_MAX -> C.to_ssize_t z = z.
Proof. apply to_off_t_id. Qed.

Lemma to_size_t_id z : 0 <= z <= C.SIZE_MAX -> C.to_size_t z = z.
Proof.
  unfold C.to_size_t, C.wrap_unsigned, C.SIZE_MAX. intros H.
  apply Z.mod_small. lia.
Qed.

Lemma to_uint64_id z : 0 <= z <= C.SIZE_MAX -> C.to_uint64 z = z.
Proof. apply to_size_t_id. Qed.

Lemma MIN_min a b : 0 <= a <= C.OFF_MAX -> C.MIN a b = Z.min a b.
Proof.
  intros H. unfold C.MIN.
  rewrite to_size_t_id by (unfold C.OFF_MAX, C.SIZE_MAX in *; lia).
  destruct (Z.ltb_spec a b); lia.
Qed.

Lemma MIN_le_r a b : C.MIN a b <= b.
Proof. unfold C.MIN. destruct (Z.ltb_spec (C.to_size_t a) b); lia. Qed.

(** ** The device file as a byte sequence *)

Lemma write_at_length_prefix (pos : nat) (file : list Byte.byte) :
  length (take pos file ++ replicate (pos - length file) Byte.x00) = pos.
Proof.
  rewrite length_app, length_take, length_replicate. lia.
Qed.

Lemma read_back_write_at (pos : nat) (data file : list Byte.byte) :
  take (length data) (drop pos (write_at pos data file)) = data.
Proof.
  unfold write_at. destruct data as [|b data]; [by rewrite take_0|].
  set (d := b :: data).
  rewrite (app_assoc (take pos file)).
  rewrite drop_app_length' by (symmetry; apply write_at_length_prefix).
  by rewrite take_app_length.
Qed.

Lemma write_at_nil (pos : nat) (file : list Byte.byte) :
  write_at pos [] file = file.
Proof. reflexivity. Qed.

(** Storing at the end of the file appends. *)
Lemma write_at_end (data file : list Byte.byte) :
  write_at (length file) data file = file ++ data.
Proof.
  unfold write_at. destruct data as [|b data]; [by rewrite app_nil_r|].
  rewrite firstn_all, Nat.sub_diag, drop_ge by lia.
  cbn [replicate app]. by rewrite app_nil_r.
Qed.

(** Where the bytes of a write land does not matter when there are none. *)
Lemma write_at_landing (app : bool) (eof pos : Z)
    (data file : list Byte.byte) :
  write_at
    (Z.to_nat (if app && (0 <? Z.of_nat (length data)) then eof else pos))
    data file =
  write_at (Z.to_nat (if app then eof else pos)) data file.
Proof.
  destruct data as [|b data]; [reflexivity|].
  replace (0 <? Z.of_nat (length (b :: data))) with true
    by (symmetry; apply Z.ltb_lt; cbn [length]; lia).
  by rewrite andb_true_r.
Qed.

(** ** Seeking inside the partition *)

Section Session.

Variable pfi : partfs_file.
Variable w : world.
Variable f : open_file.

Hypothesis desc_open : w_fds w !! pfi_desc pfi = Some f.
Hypothesis start_nonneg : 0 <= pfi_start pfi.
Hypothesis end_in_range : pfi_start pfi + pfi_size pfi <= C.OFF_MAX.

Lemma partfs_lseek_in_range off :
  0 <= off <= pfi_size pfi ->
  partfs_lseek pfi off w =
    (0, set_fd (pfi_desc pfi)
          {| of_pos := pfi_start pfi + off; of_flags := of_flags f |}
          (log (SysLseek (pfi_desc pfi) (pfi_start pfi + off)) w)).
Proof using desc_open start_nonneg end_in_range.
  intros Hoff. unfold partfs_lseek.
  replace (off >=? 0) with true by (symmetry; apply Z.geb_le; lia).
  replace (off <=? pfi_size pfi) with true by (symmetry; apply Z.leb_le; lia).
  cbn [andb].
  rewrite to_off_t_id by (unfold C.OFF_MAX in *; lia).
  unfold sys_lseek. cbn [w_fds log]. rewrite desc_open.
  replace (pfi_start pfi + off <? 0) with false
    by (symmetry; apply Z.ltb_ge; lia).
  replace (pfi_start pfi + off >=? 0) with true
    by (symmetry; apply Z.geb_le; lia).
  reflexivity.
Qed.

(** A write at an offset of the partition, on any writable descriptor:
    the seek goes to [start + off], but a descriptor in append mode stores
    the bytes at the end of the device file. *)
Lemma partfs_write_in_range_any buf len off :
  writable f = true ->
  0 <= off <= pfi_size pfi ->
  partfs_write pfi buf len off w =
    (let data := take (Z.to_nat (Z.min (pfi_size pfi - off) len)) buf in
     let n := Z.of_nat (length data) in
     let pos :=
       if appending f && (0 <? n) then Z.of_nat (length (w_file w))
       else pfi_start pfi + off in
     let w2 :=
       set_fd (pfi_desc pfi)
         {| of_pos := pos + n; of_flags := of_flags f |}
         (set_file
            (write_at (Z.to_nat pos) data (w_file w))
            (log (SysWrite (pfi_desc pfi) (Z.min (pfi_size pfi - off) len))
               (set_fd (pfi_desc pfi)
                  {| of_pos := pfi_start pfi + off;
                     of_flags := of_flags f |}
                  (log (SysLseek (pfi_desc pfi) (pfi_start pfi + off))
                     w)))) in
     (if C.to_int n <? 0 then - w_errno w2 else C.to_int n, w2)).
Proof using desc_open start_nonneg end_in_range.
  intros Hwr Hoff. unfold partfs_write.
  rewrite (partfs_lseek_in_range off Hoff).
  replace (off >=? 0) with true by (symmetry; apply Z.geb_le; lia).
  cbn [Z.eqb negb]. unfold sys_write. cbn [w_fds log set_fd].
  rewrite lookup_insert_eq.
  replace (writable _) with true by (symmetry; exact Hwr).
  rewrite MIN_min by (unfold C.OFF_MAX in *; lia).
  reflexivity.
Qed.

(** On a descriptor that is not in append mode the bytes are stored where
    the seek went. *)
Lemma partfs_write_in_range buf len off :
  writable f = true ->
  appending f = false ->
  0 <= off <= pfi_size pfi ->
  partfs_write pfi buf len off w =
    (let data := take (Z.to_nat (Z.min (pfi_size pfi - off) len)) buf in
     let n := Z.of_nat (length data) in
     let w2 :=
       set_fd (pfi_desc pfi)
         {| of_pos := pfi_start pfi + off + n; of_flags := of_flags f |}
         (set_file
            (write_at (Z.to_nat (pfi_start pfi + off)) data (w_file w))
            (log (SysWrite (pfi_desc pfi) (Z.min (pfi_size pfi - off) len))
               (set_fd (pfi_desc pfi)
                  {| of_pos := pfi_start pfi + off;
                     of_flags := of_flags f |}
                  (log (SysLseek (pfi_desc pfi) (pfi_start pfi + off))
                     w)))) in
     (if C.to_int n <? 0 then - w_errno w2 else C.to_int n, w2)).
Proof using desc_open start_nonneg end_in_range.
  intros Hwr Happ Hoff. rewrite partfs_write_in_range_any by assumption.
  rewrite Happ. reflexivity.
Qed.

Lemma partfs_read_in_range len off :
  readable f = true ->
  0 <= off <= pfi_size pfi ->
  partfs_read pfi len off w =
    (let data :=
       take (Z.to_nat (Z.min (pfi_size pfi - off) len))
         (drop (Z.to_nat (pfi_start pfi + off)) (w_file w)) in
     let n := Z.of_nat (length data) in
     let w2 :=
       set_fd (pfi_desc pfi)
         {| of_pos := pfi_start pfi + off + n; of_flags := of_flags f |}
         (log (SysRead (pfi_desc pfi) (Z.min (pfi_size pfi - off) len))
            (set_fd (pfi_desc pfi)
               {| of_pos := pfi_start pfi + off; of_flags := of_flags f |}
               (log (SysLseek (pfi_desc pfi) (pfi_start pfi + off)) w))) in
     (if C.to_int n <? 0 then - w_errno w2 else C.to_int n, data, w2)).
Proof using desc_open start_nonneg end_in_range.
  intros Hrd Hoff. unfold partfs_read.
  rewrite (partfs_lseek_in_range off Hoff).
  cbn [Z.eqb]. unfold sys_read. cbn [w_fds log set_fd].
  rewrite lookup_insert_eq.
  replace (readable _) with true by (symmetry; exact Hrd).
  rewrite MIN_min by (unfold C.OFF_MAX in *; lia).
  reflexivity.
Qed.

End Session.

Lemma partfs_lseek_out_of_range pfi off w :
  off < 0 \/ pfi_size pfi < off ->
  partfs_lseek pfi off w = (- C.EINVAL, w).
Proof.
  intros H. unfold partfs_lseek.
  destruct (Z.geb_spec off 0), (Z.leb_spec off (pfi_size pfi)); cbn [andb];
    try reflexivity; lia.
Qed.

(** ** Reading and writing through a session *)

Lemma partfs_write_negative pfi buf len off w :
  off < 0 -> partfs_write pfi buf len off w = (- C.EINVAL, w).
Proof.
  intros Hoff. unfold partfs_write.
  rewrite partfs_lseek_out_of_range by lia.
  replace (off >=? 0) with false
    by (symmetry; rewrite Z.geb_leb; apply Z.leb_gt; lia).
  reflexivity.
Qed.

Lemma partfs_write_beyond_end pfi buf len off w :
  0 <= off -> pfi_size pfi < off ->
  partfs_write pfi buf len off w = (- C.EFBIG, w).
Proof.
  intros Hoff Hbig. unfold partfs_write.
  rewrite partfs_lseek_out_of_range by lia.
  replace (off >=? 0) with true by (symmetry; apply Z.geb_le; lia).
  reflexivity.
Qed.

Lemma take_length_le {A} (n : nat) (l : list A) : (length (take n l) <= n)%nat.
Proof. rewrite length_take. lia. Qed.

(** C1.  In an open session on a readable descriptor, a read at an offset
    inside [0, size] seeks the device file to [start + offset], asks it for
    exactly [min (size - offset) length] bytes and hands back the bytes it
    got, leaving the device file as it was; a read at an offset beyond
    [size] fails with [EINVAL] without any system call. *)
Theorem partfs_read_clamped (pfi : partfs_file) (w : world) (f : open_file)
    (len off : Z) :
  w_fds w !! pfi_desc pfi = Some f ->
  readable f = true ->
  0 <= pfi_start pfi ->
  pfi_start pfi + pfi_size pfi <= C.OFF_MAX ->
  (0 <= off <= pfi_size pfi ->
   exists ret data w',
     partfs_read pfi len off w = (ret, data, w') /\
     w_trace w' =
       w_trace w ++
         [SysLseek (pfi_desc pfi) (pfi_start pfi + off);
          SysRead (pfi_desc pfi) (Z.min (pfi_size pfi - off) len)] /\
     data =
       take (Z.to_nat (Z.min (pfi_size pfi - off) len))
         (drop (Z.to_nat (pfi_start pfi + off)) (w_file w)) /\
     w_file w' = w_file w /\
     (Z.of_nat (length data) <= C.INT_MAX -> ret = Z.of_nat (length data)))
  /\
  (pfi_size pfi < off ->
   partfs_read pfi len off w = (- C.EINVAL, [], w)).
Proof.
  intros Hfd Hrd Hstart Hend. split.
  - intros Hoff.
    rewrite (partfs_read_in_range pfi w f Hfd Hstart Hend len off Hrd Hoff).
    cbn zeta. eexists _, _, _. split; [reflexivity|].
    split; [cbn [w_trace log set_fd]; by rewrite <- app_assoc|].
    split; [reflexivity|]. split; [reflexivity|].
    intros Hle. rewrite to_int_id by lia.
    match goal with |- (if ?c then _ else _) = _ =>
      destruct c eqn:Hc; [apply Z.ltb_lt in Hc; lia | reflexivity] end.
  - intros Hoff. unfold partfs_read.
    rewrite partfs_lseek_out_of_range by lia. reflexivity.
Qed.

(** C2.  In an open session on a writable descriptor: a write at offset
    [size] returns 0 whatever the length and leaves the device file as it
    was; a write beyond [size] fails with [EFBIG]; a write at a negative
    offset fails with [EINVAL]; a write at an offset in [0, size) seeks to
    [start + offset] and asks the device file to take exactly
    [min (size - offset) length] bytes, which is what it returns.  The bytes
    are stored at [start + offset], unless the descriptor is in append
    mode: then they are stored at the end of the device file. *)
Theorem partfs_write_boundaries (pfi : partfs_file) (w : world)
    (f : open_file) (buf : list Byte.byte) (len off : Z) :
  w_fds w !! pfi_desc pfi = Some f ->
  writable f = true ->
  0 <= pfi_start pfi ->
  0 <= pfi_size pfi ->
  pfi_start pfi + pfi_size pfi <= C.OFF_MAX ->
  (off = pfi_size pfi ->
   exists w', partfs_write pfi buf len off w = (0, w') /\
              w_file w' = w_file w)
  /\
  (pfi_size pfi < off -> partfs_write pfi buf len off w = (- C.EFBIG, w))
  /\
  (off < 0 -> partfs_write pfi buf len off w = (- C.EINVAL, w))
  /\
  (0 <= off < pfi_size pfi ->
   exists ret w',
     partfs_write pfi buf len off w = (ret, w') /\
     w_trace w' =
       w_trace w ++
         [SysLseek (pfi_desc pfi) (pfi_start pfi + off);
          SysWrite (pfi_desc pfi) (Z.min (pfi_size pfi - off) len)] /\
     w_file w' =
       write_at
         (Z.to_nat (if appending f then Z.of_nat (length (w_file w))
                    else pfi_start pfi + off))
         (take (Z.to_nat (Z.min (pfi_size pfi - off) len)) buf) (w_file w) /\
     (0 <= len <= Z.of_nat (length buf) ->
      Z.min (pfi_size pfi - off) len <= C.INT_MAX ->
      ret = Z.min (pfi_size pfi - off) len)).
Proof.
  intros Hfd Hwr Hstart Hsize Hend.
  pose proof (fun o => partfs_write_in_range_any pfi w f Hfd Hstart Hend
                        buf len o Hwr) as Hin.
  split; [|split; [|split]].
  - intros ->. rewrite Hin by lia. cbn zeta.
    replace (Z.to_nat (Z.min (pfi_size pfi - pfi_size pfi) len)) with 0%nat by lia.
    rewrite take_0. cbn [length Z.of_nat].
    eexists. split; reflexivity.
  - intros Hoff. apply partfs_write_beyond_end; lia.
  - intros Hoff. by apply partfs_write_negative.
  - intros Hoff. rewrite Hin by lia. cbn zeta.
    eexists _, _. split; [reflexivity|].
    split; [cbn [w_trace log set_fd set_file]; by rewrite <- app_assoc|].
    split; [cbn [w_file set_fd set_file log]; apply write_at_landing|].
    intros Hlen Hmax.
    rewrite length_take.
    replace (Z.of_nat (Z.to_nat (Z.min (pfi_size pfi - off) len) `min` length buf))
      with (Z.min (pfi_size pfi - off) len) by lia.
    rewrite to_int_id by lia.
    match goal with |- (if ?c then _ else _) = _ =>
      destruct c eqn:Hc; [apply Z.ltb_lt in Hc; lia | reflexivity] end.
Qed.

(** C4.  The round trip fails on a session opened with [O_APPEND], which
    [partfs_open] hands to [open] with the other flags.  On the demo
    image, writing three bytes at offset 2 of the partition returns 3 but
    appends them to the image, which grows to 19 bytes, and reading three
    bytes at offset 2 returns the old contents.  So it is for every such
    session whose partition lies inside the device file: the write returns
    the length of [b], [b] ends up behind the end of the device file, and
    the read returns what the partition held before. *)
Theorem write_then_read_append_mode :
  (exists w1 w2,
     partfs_write demo_session [Byte.xaa; Byte.xbb; Byte.xcc] 3 2
       (demo_world_with (Z.lor O_RDWR O_APPEND)) = (3, w1) /\
     w_file w1 = demo_file ++ [Byte.xaa; Byte.xbb; Byte.xcc] /\
     partfs_read demo_session 3 2 w1
       = (3, [Byte.x16; Byte.x17; Byte.x18], w2))
  /\
  (forall (pfi : partfs_file) (w : world) (f : open_file)
          (b : list Byte.byte) (o : Z),
     w_fds w !! pfi_desc pfi = Some f ->
     readable f = true ->
     writable f = true ->
     appending f = true ->
     0 <= pfi_start pfi ->
     pfi_start pfi + pfi_size pfi <= C.OFF_MAX ->
     pfi_start pfi + pfi_size pfi <= Z.of_nat (length (w_file w)) ->
     0 <= o ->
     o + Z.of_nat (length b) <= pfi_size pfi ->
     Z.of_nat (length b) <= C.INT_MAX ->
     exists w1 w2,
       partfs_write pfi b (Z.of_nat (length b)) o w
         = (Z.of_nat (length b), w1) /\
       w_file w1 = w_file w ++ b /\
       partfs_read pfi (Z.of_nat (length b)) o w1
         = (Z.of_nat (length b),
            take (length b) (drop (Z.to_nat (pfi_start pfi + o)) (w_file w)),
            w2)).
Proof.
  split; [eexists _, _; repeat split; reflexivity|].
  intros pfi w f b o Hfd Hrd Hwr Happ Hstart Hend Hin Ho Hfit Hmax.
  assert (Hoff : 0 <= o <= pfi_size pfi) by lia.
  assert (Hmin : Z.to_nat (Z.min (pfi_size pfi - o) (Z.of_nat (length b)))
                 = length b) by lia.
  assert (Hret : (if C.to_int (Z.of_nat (length b)) <? 0 then 0
                  else C.to_int (Z.of_nat (length b))) = Z.of_nat (length b)).
  { rewrite to_int_id by lia.
    destruct (Z.ltb_spec (Z.of_nat (length b)) 0); [lia | reflexivity]. }
  pose proof (partfs_write_in_range_any pfi w f Hfd Hstart Hend b
                (Z.of_nat (length b)) o Hwr Hoff) as Hw.
  cbn zeta in Hw. rewrite Hmin, firstn_all in Hw.
  match type of Hw with _ = (?r, ?x) => set (w1 := x) in * end.
  assert (Hfile : w_file w1 = w_file w ++ b).
  { subst w1. cbn [w_file set_fd set_file log].
    rewrite write_at_landing, Happ, Nat2Z.id. apply write_at_end. }
  assert (Hfd1 : exists f1, w_fds w1 !! pfi_desc pfi = Some f1 /\
                            of_flags f1 = of_flags f).
  { subst w1. cbn [w_fds set_fd]. rewrite lookup_insert_eq. by eexists. }
  destruct Hfd1 as (f1 & Hfd1 & Hflags).
  assert (Hrd1 : readable f1 = true)
    by (unfold readable in *; by rewrite Hflags).
  pose proof (partfs_read_in_range pfi w1 f1 Hfd1 Hstart Hend
                (Z.of_nat (length b)) o Hrd1 Hoff) as Hr.
  cbn zeta in Hr. rewrite Hmin, Hfile in Hr.
  rewrite drop_app_le, take_app_le in Hr
    by (rewrite ?length_drop; lia).
  assert (Hlen : length (take (length b)
                   (drop (Z.to_nat (pfi_start pfi + o)) (w_file w)))
                 = length b)
    by (rewrite length_take, length_drop; lia).
  rewrite Hlen in Hr.
  match type of Hr with _ = (_, _, ?x) => set (w2 := x) in * end.
  exists w1, w2. split; [|split; [exact Hfile|]].
  - rewrite Hw. f_equal. rewrite to_int_id by lia.
    destruct (Z.ltb_spec (Z.of_nat (length b)) 0); [lia | reflexivity].
  - rewrite Hr. do 2 f_equal. rewrite to_int_id by lia.
    destruct (Z.ltb_spec (Z.of_nat (length b)) 0); [lia | reflexivity].
Qed.

(** X22.  In an open session on a descriptor open for reading and writing
    and not in append mode, writing [b] at an offset [o] with [o + len b]
    inside the partition and then reading [len b] bytes at [o] gives back
    exactly [b]. *)
Theorem write_then_read_roundtrip (pfi : partfs_file) (w : world)
    (f : open_file) (b : list Byte.byte) (o : Z) :
  w_fds w !! pfi_desc pfi = Some f ->
  readable f = true ->
  writable f = true ->
  appending f = false ->
  0 <= pfi_start pfi ->
  pfi_start pfi + pfi_size pfi <= C.OFF_MAX ->
  0 <= o ->
  o + Z.of_nat (length b) <= pfi_size pfi ->
  exists r1 w1 r2 data w2,
    partfs_write pfi b (Z.of_nat (length b)) o w = (r1, w1) /\
    partfs_read pfi (Z.of_nat (length b)) o w1 = (r2, data, w2) /\
    data = b /\
    (Z.of_nat (length b) <= C.INT_MAX ->
     r1 = Z.of_nat (length b) /\ r2 = Z.of_nat (length b)).
Proof.
  intros Hfd Hrd Hwr Happ Hstart Hend Ho Hfit.
  assert (Hoff : 0 <= o <= pfi_size pfi) by lia.
  assert (Hmin : Z.to_nat (Z.min (pfi_size pfi - o) (Z.of_nat (length b)))
                 = length b) by lia.
  rewrite (partfs_write_in_range pfi w f Hfd Hstart Hend b _ o Hwr Happ Hoff).
  cbn zeta. rewrite Hmin, firstn_all.
  match goal with |- context [(?r, ?x) = _] => set (ret1 := r); set (w1 := x) end.
  assert (Hfd1 : w_fds w1 !! pfi_desc pfi =
                 Some {| of_pos := pfi_start pfi + o + Z.of_nat (length b);
                         of_flags := of_flags f |})
    by (subst w1; cbn [w_fds set_fd]; apply lookup_insert_eq).
  assert (Hdata : take (length b)
                    (drop (Z.to_nat (pfi_start pfi + o)) (w_file w1)) = b)
    by (subst w1; cbn [w_file set_fd set_file]; apply read_back_write_at).
  exists ret1, w1.
  rewrite (partfs_read_in_range pfi w1 _ Hfd1 Hstart Hend _ o Hrd Hoff).
  cbn zeta. rewrite Hmin, Hdata.
  eexists _, _, _. split; [reflexivity|]. split; [reflexivity|].
  split; [reflexivity|].
  intros Hmax. subst ret1. rewrite to_int_id by lia.
  destruct (Z.ltb_spec (Z.of_nat (length b)) 0); [lia|]. split; reflexivity.
Qed.

(** C10.  A write at a negative offset fails with [EINVAL] and a write
    beyond the end of the partition fails with [EFBIG]; either way no system
    call is made and the world, the device file included, is exactly as it
    was.  More generally no write that returns an error has changed the
    device file (for a length an [int] can hold). *)
Theorem partfs_write_failure_writes_nothing (pfi : partfs_file)
    (buf : list Byte.byte) (len off : Z) (w : world) :
  (off < 0 -> partfs_write pfi buf len off w = (- C.EINVAL, w))
  /\
  (0 <= off -> pfi_size pfi < off ->
   partfs_write pfi buf len off w = (- C.EFBIG, w))
  /\
  (forall ret w',
     partfs_write pfi buf len off w = (ret, w') ->
     len <= C.INT_MAX -> ret < 0 -> w_file w' = w_file w).
Proof.
  split; [|split].
  - apply partfs_write_negative.
  - apply partfs_write_beyond_end.
  - intros ret w' Hcall Hlen Hret. unfold partfs_write, partfs_lseek in Hcall.
    destruct ((off >=? 0) && (off <=? pfi_size pfi)) eqn:Hguard.
    + unfold sys_lseek in Hcall. cbn [w_fds log] in Hcall.
      apply andb_prop in Hguard as [Hge _]. rewrite Hge in Hcall.
      destruct (w_fds w !! pfi_desc pfi) as [f|] eqn:Hfd.
      * destruct (C.to_off_t (pfi_start pfi + off) <? 0) eqn:Hneg.
        { cbn in Hcall. injection Hcall as _ <-. reflexivity. }
        replace (C.to_off_t (pfi_start pfi + off) >=? 0) with true in Hcall
          by (symmetry; rewrite Z.geb_leb; apply Z.leb_le;
              apply Z.ltb_ge in Hneg; lia).
        cbn [Z.eqb negb] in Hcall. unfold sys_write in Hcall.
        cbn [w_fds log set_fd] in Hcall. rewrite lookup_insert_eq in Hcall.
        destruct (writable _).
        -- pose proof (MIN_le_r (pfi_size pfi - off) len) as Hmin.
           pose proof (take_length_le (Z.to_nat (C.MIN (pfi_size pfi - off) len)) buf) as Hlt.
           rewrite to_int_id in Hcall by (unfold C.INT_MAX in *; lia).
           match type of Hcall with context [if ?c then _ else _] =>
             destruct c eqn:Hc; [apply Z.ltb_lt in Hc; lia|] end.
           injection Hcall as <- _. lia.
        -- cbn in Hcall. injection Hcall as _ <-. reflexivity.
      * cbn in Hcall. injection Hcall as _ <-. reflexivity.
    + destruct (off >=? 0); injection Hcall as _ <-; reflexivity.
Qed.

Ltac concrete :=
  first [ reflexivity
        | cbn [pfi_desc pfi_start pfi_size demo_session length];
          unfold C.OFF_MAX, C.INT_MAX, C.SSIZE_MAX, C.SIZE_MAX; lia ].

Lemma partfs_read_clamped_witness :
  (0 <= 5 <= pfi_size demo_session ->
   exists ret data w',
     partfs_read demo_session 100 5 demo_world = (ret, data, w') /\
     w_trace w' =
       w_trace demo_world ++
         [SysLseek (pfi_desc demo_session) (pfi_start demo_session + 5);
          SysRead (pfi_desc demo_session)
            (Z.min (pfi_size demo_session - 5) 100)] /\
     data =
       take (Z.to_nat (Z.min (pfi_size demo_session - 5) 100))
         (drop (Z.to_nat (pfi_start demo_session + 5)) (w_file demo_world)) /\
     w_file w' = w_file demo_world /\
     (Z.of_nat (length data) <= C.INT_MAX -> ret = Z.of_nat (length data)))
  /\
  (pfi_size demo_session < 5 ->
   partfs_read demo_session 100 5 demo_world = (- C.EINVAL, [], demo_world)).
Proof.
  apply (partfs_read_clamped demo_session demo_world demo_open_file 100 5);
    concrete.
Defined.

Lemma partfs_write_boundaries_witness :
  exists w',
    partfs_write demo_session [Byte.xaa; Byte.xbb; Byte.xcc] 3 8 demo_world
      = (0, w') /\
    w_file w' = w_file demo_world.
Proof.
  apply (partfs_write_boundaries demo_session demo_world demo_open_file
           [Byte.xaa; Byte.xbb; Byte.xcc] 3 8); concrete.
Defined.

Lemma write_then_read_roundtrip_witness :
  exists r1 w1 r2 data w2,
    partfs_write demo_session [Byte.xaa; Byte.xbb; Byte.xcc]
      (Z.of_nat (length [Byte.xaa; Byte.xbb; Byte.xcc])) 2 demo_world
      = (r1, w1) /\
    partfs_read demo_session
      (Z.of_nat (length [Byte.xaa; Byte.xbb; Byte.xcc])) 2 w1
      = (r2, data, w2) /\
    data = [Byte.xaa; Byte.xbb; Byte.xcc] /\
    (Z.of_nat (length [Byte.xaa; Byte.xbb; Byte.xcc]) <= C.INT_MAX ->
     r1 = Z.of_nat (length [Byte.xaa; Byte.xbb; Byte.xcc]) /\
     r2 = Z.of_nat (length [Byte.xaa; Byte.xbb; Byte.xcc])).
Proof.
  apply (write_then_read_roundtrip demo_session demo_world demo_open_file
           [Byte.xaa; Byte.xbb; Byte.xcc] 2); concrete.
Defined.

(** ** Strings *)

Lemma append_cons (x : ascii) (a b : string) :
  String x a +:+ b = String x (a +:+ b).
Proof. reflexivity. Qed.

Lemma append_nil_l (a : string) : "" +:+ a = a.
Proof. reflexivity. Qed.

Lemma append_assoc (a b c : string) : (a +:+ b) +:+ c = a +:+ (b +:+ c).
Proof.
  induction a as [|x a IH]; [reflexivity|].
  rewrite !append_cons. by rewrite IH.
Qed.

Lemma append_nil_r (a : string) : a +:+ "" = a.
Proof.
  induction a as [|x a IH]; [reflexivity|]. rewrite append_cons. by rewrite IH.
Qed.

Lemma length_append (a b : string) :
  String.length (a +:+ b) = (String.length a + String.length b)%nat.
Proof.
  induction a as [|x a IH]; [reflexivity|].
  rewrite append_cons. cbn [String.length]. by rewrite IH.
Qed.

Lemma length_zero_empty (a : string) : String.length a = 0%nat -> a = "".
Proof. destruct a; [reflexivity | discriminate]. Qed.

Lemma string_forall_append p a b :
  string_forall p (a +:+ b) = string_forall p a && string_forall p b.
Proof.
  induction a as [|x a IH]; [reflexivity|].
  rewrite append_cons. cbn [string_forall]. rewrite IH. by rewrite andb_assoc.
Qed.

(** ** Character classes *)

Lemma code_range c : 0 <= Scanf.code c < 256.
Proof.
  unfold Scanf.code. pose proof (N_ascii_bounded c) as H. lia.
Qed.

Lemma digit_not_space c : Scanf.isdigit c = true -> Scanf.isspace c = false.
Proof.
  unfold Scanf.isdigit, Scanf.isspace. intros H.
  apply andb_prop in H as [H1 H2].
  apply Z.leb_le in H1. apply Z.leb_le in H2.
  apply orb_false_intro; [apply Z.eqb_neq; lia|].
  apply andb_false_intro2. apply Z.leb_gt. lia.
Qed.

Lemma digit_not_sign c :
  Scanf.isdigit c = true -> Ascii.eqb c "+" = false /\ Ascii.eqb c "-" = false.
Proof.
  intros H. split; apply Ascii.eqb_neq; intros ->; discriminate H.
Qed.

Lemma digit_value_range c : Scanf.isdigit c = true -> 0 <= Scanf.digit_value c <= 9.
Proof.
  unfold Scanf.isdigit, Scanf.digit_value. intros H.
  apply andb_prop in H as [H1 H2].
  apply Z.leb_le in H1. apply Z.leb_le in H2. lia.
Qed.

Lemma code_digit_char d : 0 <= d <= 9 -> Scanf.code (Scanf.digit_char d) = 48 + d.
Proof.
  intros H. unfold Scanf.code, Scanf.digit_char.
  rewrite N_ascii_embedding by lia. lia.
Qed.

Lemma isdigit_digit_char d : 0 <= d <= 9 -> Scanf.isdigit (Scanf.digit_char d) = true.
Proof.
  intros H. unfold Scanf.isdigit. rewrite code_digit_char by lia.
  apply andb_true_intro. split; apply Z.leb_le; lia.
Qed.

Lemma digit_value_digit_char d : 0 <= d <= 9 -> Scanf.digit_value (Scanf.digit_char d) = d.
Proof.
  intros H. unfold Scanf.digit_value. rewrite code_digit_char by lia. lia.
Qed.

(** ** The scanner's loops *)

Lemma skip_space_app ws s k :
  string_forall Scanf.isspace ws = true ->
  head_is_not Scanf.isspace s ->
  Scanf.skip_space (ws +:+ s) k = (s, k + Z.of_nat (String.length ws)).
Proof.
  revert k. induction ws as [|c ws IH]; intros k Hws Hs.
  - rewrite append_nil_l. destruct s as [|c r]; cbn in *; [f_equal; lia|].
    rewrite Hs. f_equal. lia.
  - cbn in Hws. apply andb_prop in Hws as [Hc Hws].
    rewrite append_cons. cbn [Scanf.skip_space]. rewrite Hc, IH by assumption.
    f_equal. cbn [String.length]. lia.
Qed.

Lemma skip_space_inv s k s1 k1 :
  Scanf.skip_space s k = (s1, k1) ->
  exists ws,
    s = ws +:+ s1 /\ string_forall Scanf.isspace ws = true /\
    k1 = k + Z.of_nat (String.length ws) /\ head_is_not Scanf.isspace s1.
Proof.
  revert k. induction s as [|c r IH]; intros k H; cbn in H.
  - injection H as <- <-. exists "". cbn. repeat split. lia.
  - destruct (Scanf.isspace c) eqn:Hc.
    + apply IH in H as (ws & -> & Hws & -> & Hhead).
      exists (String c ws). rewrite append_cons. cbn. rewrite Hc, Hws.
      repeat split; [lia | assumption].
    + injection H as <- <-. exists "". cbn. repeat split; [lia | assumption].
Qed.

Lemma scan_digits_app ds rest acc k :
  string_forall Scanf.isdigit ds = true ->
  head_is_not Scanf.isdigit rest ->
  Scanf.scan_digits (ds +:+ rest) acc k =
    (digits_value ds acc, k + Z.of_nat (String.length ds), rest).
Proof.
  revert acc k. induction ds as [|c ds IH]; intros acc k Hds Hrest.
  - rewrite append_nil_l. destruct rest as [|c r]; cbn in *; [repeat f_equal; lia|].
    rewrite Hrest. repeat f_equal. lia.
  - cbn in Hds. apply andb_prop in Hds as [Hc Hds].
    rewrite append_cons. cbn [Scanf.scan_digits digits_value].
    rewrite Hc, IH by assumption.
    cbn [String.length]. do 2 f_equal. lia.
Qed.

Lemma scan_digits_inv s acc k m kd rest :
  Scanf.scan_digits s acc k = (m, kd, rest) ->
  exists ds,
    s = ds +:+ rest /\ string_forall Scanf.isdigit ds = true /\
    m = digits_value ds acc /\ kd = k + Z.of_nat (String.length ds) /\
    head_is_not Scanf.isdigit rest.
Proof.
  revert acc k. induction s as [|c r IH]; intros acc k H; cbn in H.
  - injection H as <- <- <-. exists "". cbn. repeat split. lia.
  - destruct (Scanf.isdigit c) eqn:Hc.
    + apply IH in H as (ds & -> & Hds & -> & -> & Hhead).
      exists (String c ds). rewrite append_cons. cbn. rewrite Hc, Hds.
      repeat split; [lia | assumption].
    + injection H as <- <- <-. exists "". cbn.
      repeat split; [lia | assumption].
Qed.

Lemma sign_digits_head_not_space sg ds rest :
  is_sign sg -> ds <> "" -> string_forall Scanf.isdigit ds = true ->
  head_is_not Scanf.isspace (sg +:+ ds +:+ rest).
Proof.
  intros [-> | [-> | ->]] Hne Hds; try reflexivity.
  destruct ds as [|d ds]; [done|]. cbn in Hds.
  apply andb_prop in Hds as [Hd _].
  rewrite append_nil_l, append_cons. cbn. by apply digit_not_space.
Qed.

Lemma scan_zu_app ws sg ds rest :
  string_forall Scanf.isspace ws = true ->
  is_sign sg -> ds <> "" ->
  string_forall Scanf.isdigit ds = true ->
  head_is_not Scanf.isdigit rest ->
  Scanf.scan_zu (ws +:+ sg +:+ ds +:+ rest) =
    Scanf.Matched (scanned_value sg ds)
      (Z.of_nat (String.length ws) + Z.of_nat (String.length sg)
       + Z.of_nat (String.length ds))
      rest.
Proof.
  intros Hws Hsg Hne Hds Hrest. unfold Scanf.scan_zu.
  rewrite skip_space_app
    by (try assumption; by apply sign_digits_head_not_space).
  assert (Hlen : (Z.of_nat (String.length ds) =? 0) = false).
  { apply Z.eqb_neq. destruct ds; [done | cbn [String.length]; lia]. }
  unfold scanned_value.
  destruct Hsg as [-> | [-> | ->]].
  - rewrite append_nil_l. destruct ds as [|d ds'] eqn:Eds; [done|].
    rewrite append_cons. unfold Scanf.scan_sign.
    assert (Hd : Scanf.isdigit d = true)
      by (cbn in Hds; by apply andb_prop in Hds as [? _]).
    destruct (digit_not_sign d Hd) as [-> ->].
    rewrite <- append_cons, scan_digits_app by assumption.
    rewrite !Z.add_0_l, Hlen. reflexivity.
  - rewrite append_cons, append_nil_l. destruct (ds +:+ rest) eqn:E.
    + destruct ds; [done | discriminate E].
    + rewrite <- E. cbn [Scanf.scan_sign Ascii.eqb Bool.eqb andb].
      rewrite scan_digits_app by assumption. rewrite !Z.add_0_l, Hlen.
      reflexivity.
  - rewrite append_cons, append_nil_l. destruct (ds +:+ rest) eqn:E.
    + destruct ds; [done | discriminate E].
    + rewrite <- E. cbn [Scanf.scan_sign Ascii.eqb Bool.eqb andb].
      rewrite scan_digits_app by assumption. rewrite !Z.add_0_l, Hlen.
      reflexivity.
Qed.

Lemma scan_zu_inv s v k rest :
  Scanf.scan_zu s = Scanf.Matched v k rest ->
  exists ws sg ds,
    s = ws +:+ sg +:+ ds +:+ rest /\
    string_forall Scanf.isspace ws = true /\
    is_sign sg /\ ds <> "" /\
    string_forall Scanf.isdigit ds = true /\
    k = Z.of_nat (String.length ws) + Z.of_nat (String.length sg)
        + Z.of_nat (String.length ds) /\
    v = scanned_value sg ds /\
    head_is_not Scanf.isdigit rest.
Proof.
  unfold Scanf.scan_zu. intros H.
  destruct (Scanf.skip_space s 0) as [s1 k0] eqn:Hskip.
  apply skip_space_inv in Hskip as (ws & -> & Hws & -> & _).
  destruct s1 as [|c r]; [discriminate|].
  assert (Hfin : forall neg s2 ks sg,
    is_sign sg -> String c r = sg +:+ s2 ->
    ks = Z.of_nat (String.length sg) -> neg = String.eqb sg "-" ->
    (let '(m, kd, rest0) := Scanf.scan_digits s2 0 0 in
     if kd =? 0 then Scanf.MatchFailure
     else Scanf.Matched (Scanf.strtoul_value neg m)
            (0 + Z.of_nat (String.length ws) + ks + kd) rest0)
    = Scanf.Matched v k rest ->
    exists ws0 sg0 ds,
      ws +:+ String c r = ws0 +:+ sg0 +:+ ds +:+ rest /\
      string_forall Scanf.isspace ws0 = true /\
      is_sign sg0 /\ ds <> "" /\
      string_forall Scanf.isdigit ds = true /\
      k = Z.of_nat (String.length ws0) + Z.of_nat (String.length sg0)
          + Z.of_nat (String.length ds) /\
      v = scanned_value sg0 ds /\
      head_is_not Scanf.isdigit rest).
  { intros neg s2 ks sg Hsg Hs2 -> -> H0.
    destruct (Scanf.scan_digits s2 0 0) as [[m kd] rest0] eqn:Hscan.
    apply scan_digits_inv in Hscan as (ds & -> & Hds & -> & -> & Hhead).
    destruct (0 + Z.of_nat (String.length ds) =? 0) eqn:Hz; [discriminate|].
    injection H0 as <- <- <-.
    exists ws, sg, ds. rewrite Hs2.
    repeat split; try assumption; try lia.
    intros ->. cbn in Hz. discriminate. }
  unfold Scanf.scan_sign in H.
  destruct (Ascii.eqb c "+") eqn:Hplus.
  - apply Ascii.eqb_eq in Hplus as ->.
    apply (Hfin false r 1 "+"); try reflexivity; [right; by left | exact H].
  - destruct (Ascii.eqb c "-") eqn:Hminus.
    + apply Ascii.eqb_eq in Hminus as ->.
      apply (Hfin true r 1 "-"); try reflexivity; [right; by right | exact H].
    + apply (Hfin false (String c r) 0 ""); try reflexivity; [by left | exact H].
Qed.

(** ** The format of path names *)

Lemma literal_cons c s : Scanf.literal (String c s) = Scanf.Lit c :: Scanf.literal s.
Proof. reflexivity. Qed.

Lemma run_literal_app lit fmt rest k a out :
  Scanf.run (Scanf.literal lit ++ fmt) (lit +:+ rest) k a out =
  Scanf.run fmt rest (k + Z.of_nat (String.length lit)) a out.
Proof.
  revert k. induction lit as [|c lit IH]; intros k.
  - rewrite append_nil_l. cbn [Scanf.literal list_ascii_of_string map app String.length].
    f_equal. cbn. lia.
  - rewrite literal_cons, append_cons. cbn [app Scanf.run].
    rewrite Ascii.eqb_refl, IH. f_equal. cbn [String.length]. lia.
Qed.

Lemma run_literal_mismatch lit fmt input k out :
  strip_prefix lit input = None ->
  exists r, Scanf.run (Scanf.literal lit ++ fmt) input k 0 out = (r, out) /\ r <> 1.
Proof.
  revert input k. induction lit as [|c lit IH]; intros input k H.
  - discriminate.
  - rewrite literal_cons. cbn [app Scanf.run].
    destruct input as [|a rest]; cbn in H.
    + exists Scanf.EOF. split; [reflexivity | discriminate].
    + rewrite (Ascii.eqb_sym a c). destruct (Ascii.eqb c a).
      * by apply IH.
      * exists 0. split; [reflexivity | discriminate].
Qed.

Lemma strip_prefix_Some p s r : strip_prefix p s = Some r -> s = p +:+ r.
Proof.
  revert s. induction p as [|a p IH]; intros s H.
  - cbn in H. by injection H as ->.
  - destruct s as [|b s]; cbn in H; [discriminate|].
    destruct (Ascii.eqb a b) eqn:E; [|discriminate].
    apply Ascii.eqb_eq in E as ->. rewrite append_cons. f_equal. by apply IH.
Qed.

Lemma strip_prefix_app p r : strip_prefix p (p +:+ r) = Some r.
Proof.
  induction p as [|a p IH]; [reflexivity|].
  rewrite append_cons. cbn. by rewrite Ascii.eqb_refl.
Qed.

(** The parser, one step at a time: the prefix must be there, [%zu] must
    match, and the count stored by [%n] must be the length of the path. *)
Lemma parse_path_unfold path :
  __partfs_parse_path path =
    match strip_prefix "/part_" path with
    | Some rest0 =>
        match Scanf.scan_zu rest0 with
        | Scanf.Matched v k _ =>
            if C.to_int (6 + k) =? C.to_int (C.strlen path)
            then C.to_ssize_t v else -1
        | _ => -1
        end
    | None => -1
    end.
Proof.
  unfold __partfs_parse_path, Scanf.sscanf, partfs_path_format.
  change ("/" +:+ PARTFS_NAME_PREFIX) with "/part_".
  destruct (strip_prefix "/part_" path) as [rest0|] eqn:Hp.
  - apply strip_prefix_Some in Hp. rewrite Hp at 1.
    rewrite run_literal_app. cbn [Scanf.run].
    destruct (Scanf.scan_zu rest0) as [| |v k rest]; reflexivity.
  - destruct (run_literal_mismatch "/part_" [Scanf.Conv_zu; Scanf.Conv_n]
                path 0 {| Scanf.arg_n := None; Scanf.arg_c := None |} Hp)
      as (r & -> & _).
    reflexivity.
Qed.

Lemma strlen_append a b : C.strlen (a +:+ b) = C.strlen a + C.strlen b.
Proof. unfold C.strlen. rewrite length_append. lia. Qed.

Lemma strlen_nonneg a : 0 <= C.strlen a.
Proof. unfold C.strlen. lia. Qed.

(** A name of the scanned shape is consumed whole and decodes to the value
    of its digits. *)
Lemma parse_scanned path ws sg ds :
  scanned_name path ws sg ds ->
  __partfs_parse_path path = C.to_ssize_t (scanned_value sg ds).
Proof.
  intros (-> & Hws & Hsg & Hne & Hds).
  rewrite parse_path_unfold, strip_prefix_app.
  rewrite <- (append_nil_r ds) at 1.
  rewrite scan_zu_app by (try assumption; exact I).
  rewrite !strlen_append. change (C.strlen "/part_") with 6.
  unfold C.strlen.
  match goal with |- context [C.to_int ?a =? C.to_int ?b] =>
    replace b with a by lia end.
  by rewrite Z.eqb_refl.
Qed.

(** Anything after the digits makes the count stored by [%n] fall short of
    the length of the path. *)
Lemma parse_trailing path ws sg ds c rest :
  scanned_name path ws sg ds ->
  Scanf.isdigit c = false ->
  C.strlen (path +:+ String c rest) <= C.INT_MAX ->
  __partfs_parse_path (path +:+ String c rest) = -1.
Proof.
  intros (-> & Hws & Hsg & Hne & Hds) Hc Hlen.
  rewrite parse_path_unfold.
  rewrite !append_assoc in *. rewrite strip_prefix_app.
  rewrite scan_zu_app by assumption.
  rewrite !strlen_append in *. change (C.strlen "/part_") with 6 in *.
  pose proof (strlen_nonneg ws). pose proof (strlen_nonneg sg).
  pose proof (strlen_nonneg ds). pose proof (strlen_nonneg rest).
  assert (C.strlen (String c rest) = 1 + C.strlen rest)
    by (unfold C.strlen; cbn [String.length]; lia).
  unfold C.strlen in *.
  rewrite !to_int_id by lia.
  match goal with |- (if ?b then _ else _) = _ =>
    destruct b eqn:E; [apply Z.eqb_eq in E; lia | reflexivity] end.
Qed.

(** Whatever the parser accepts has the scanned shape, entirely. *)
Lemma parse_inv path :
  C.strlen path <= C.INT_MAX ->
  __partfs_parse_path path <> -1 ->
  exists ws sg ds,
    scanned_name path ws sg ds /\
    __partfs_parse_path path = C.to_ssize_t (scanned_value sg ds).
Proof.
  intros Hlen H.
  assert (Hshape : exists ws sg ds, scanned_name path ws sg ds).
  { rewrite parse_path_unfold in H.
    destruct (strip_prefix "/part_" path) as [rest0|] eqn:Hp; [|done].
    apply strip_prefix_Some in Hp.
    destruct (Scanf.scan_zu rest0) as [| |v k rest] eqn:Hzu; [done|done|].
    apply scan_zu_inv in Hzu as (ws & sg & ds & -> & Hws & Hsg & Hne & Hds & -> & -> & _).
    destruct (C.to_int _ =? C.to_int _) eqn:Heq; [|done].
    apply Z.eqb_eq in Heq. subst path.
    rewrite !strlen_append in *. change (C.strlen "/part_") with 6 in *.
    pose proof (strlen_nonneg ws). pose proof (strlen_nonneg sg).
    pose proof (strlen_nonneg ds). pose proof (strlen_nonneg rest).
    unfold C.strlen in *.
    rewrite !to_int_id in Heq by lia.
    assert (rest = "") as -> by (apply length_zero_empty; lia).
    exists ws, sg, ds. rewrite append_nil_r. by repeat split. }
  destruct Hshape as (ws & sg & ds & Hshape).
  exists ws, sg, ds. split; [assumption | by apply (parse_scanned path ws)].
Qed.

(** ** Printing a number and reading it back *)

Lemma digits_value_append a b acc :
  digits_value (a +:+ b) acc = digits_value b (digits_value a acc).
Proof.
  revert acc. induction a as [|c a IH]; intros acc; [reflexivity|].
  rewrite append_cons. cbn [digits_value]. apply IH.
Qed.

Lemma print_digits_spec fuel n acc :
  0 <= n ->
  exists ds,
    Scanf.print_digits fuel n acc = ds +:+ acc /\
    string_forall Scanf.isdigit ds = true /\
    (fuel <> 0%nat -> ds <> "") /\
    (forall k : nat,
       (k <= fuel)%nat -> k <> 0%nat -> n < 10 ^ Z.of_nat k ->
       digits_value ds 0 = n /\ (String.length ds <= k)%nat).
Proof.
  revert n acc. induction fuel as [|fuel IH]; intros n acc Hn.
  - exists "". repeat split; try done; lia.
  - cbn [Scanf.print_digits].
    assert (Hd : 0 <= n mod 10 <= 9) by (pose proof (Z.mod_pos_bound n 10); lia).
    pose proof (Z.div_mod n 10 ltac:(lia)) as Hdm.
    destruct (n / 10 =? 0) eqn:Hq.
    + apply Z.eqb_eq in Hq.
      exists (String (Scanf.digit_char (n mod 10)) "").
      split; [reflexivity|]. split; [cbn; by rewrite isdigit_digit_char|].
      split; [done|]. intros k _ Hk _. split.
      * cbn [digits_value]. rewrite digit_value_digit_char by lia. lia.
      * cbn [String.length]. lia.
    + apply Z.eqb_neq in Hq.
      assert (Hq0 : 0 <= n / 10) by (apply Z.div_pos; lia).
      destruct (IH (n / 10) (String (Scanf.digit_char (n mod 10)) acc) Hq0)
        as (ds' & Hrun & Hds' & _ & Hval).
      exists (ds' +:+ String (Scanf.digit_char (n mod 10)) "").
      split; [by rewrite Hrun, append_assoc|].
      split; [rewrite string_forall_append, Hds'; cbn;
              by rewrite isdigit_digit_char|].
      split; [intros _ E; apply (f_equal String.length) in E;
              rewrite length_append in E; cbn in E; lia|].
      intros k Hk Hk0 Hlt.
      assert (Hk2 : (2 <= k)%nat).
      { destruct k as [|[|k]]; [done | | lia]. cbn in Hlt. lia. }
      destruct (Hval (k - 1)%nat ltac:(lia) ltac:(lia)) as [Hv Hl].
      { apply Z.div_lt_upper_bound; [lia|].
        replace (Z.of_nat k) with (Z.succ (Z.of_nat (k - 1))) in Hlt by lia.
        rewrite Z.pow_succ_r in Hlt by lia. lia. }
      split.
      * rewrite digits_value_append, Hv. cbn [digits_value].
        rewrite digit_value_digit_char by lia. lia.
      * rewrite length_append. cbn [String.length]. lia.
Qed.

Lemma print_zu_spec n :
  0 <= n <= C.SIZE_MAX ->
  string_forall Scanf.isdigit (Scanf.print_zu n) = true /\
  Scanf.print_zu n <> "" /\
  digits_value (Scanf.print_zu n) 0 = n.
Proof.
  intros Hn. unfold Scanf.print_zu.
  destruct (print_digits_spec 20 n "" ltac:(lia)) as (ds & -> & Hds & Hne & Hval).
  rewrite append_nil_r. split; [assumption|]. split; [by apply Hne|].
  apply (Hval 20%nat); [lia | lia |].
  unfold C.SIZE_MAX in Hn. change (10 ^ Z.of_nat 20) with 100000000000000000000.
  change (2 ^ 64) with 18446744073709551616 in Hn. lia.
Qed.

Lemma print_zu_length n (k : nat) :
  0 <= n < 10 ^ Z.of_nat k -> (k <= 20)%nat -> k <> 0%nat ->
  (String.length (Scanf.print_zu n) <= k)%nat.
Proof.
  intros Hn Hk Hk0. unfold Scanf.print_zu.
  destruct (print_digits_spec 20 n "" ltac:(lia)) as (ds & -> & _ & _ & Hval).
  rewrite append_nil_r. apply (Hval k); [assumption | assumption | lia].
Qed.

Lemma canonical_path_scanned n :
  0 <= n <= C.SIZE_MAX ->
  scanned_name (canonical_path n) "" "" (Scanf.print_zu n).
Proof.
  intros Hn. destruct (print_zu_spec n Hn) as (Hds & Hne & _).
  unfold scanned_name. repeat split; try assumption. by left.
Qed.

(** The parser reads the canonical name of [n] back as [n]. *)
Lemma parse_canonical_path n :
  0 <= n <= C.SSIZE_MAX ->
  __partfs_parse_path (canonical_path n) = n.
Proof.
  intros Hn.
  assert (Hn' : 0 <= n <= C.SIZE_MAX) by (unfold C.SSIZE_MAX, C.SIZE_MAX in *; lia).
  rewrite (parse_scanned _ _ _ _ (canonical_path_scanned n Hn')).
  unfold scanned_value. destruct (print_zu_spec n Hn') as (_ & _ & ->).
  cbn [String.eqb]. unfold Scanf.strtoul_value.
  replace (C.SIZE_MAX <? n) with false by (symmetry; apply Z.ltb_ge; lia).
  apply to_ssize_t_id. lia.
Qed.

(** ** Looking up a path *)

Lemma prefixed_not_root path rest :
  strip_prefix "/part_" path = Some rest -> String.eqb path "/" = false.
Proof. intros H. apply strip_prefix_Some in H. by subst path. Qed.

Lemma parse_root : __partfs_parse_path "/" = -1.
Proof. reflexivity. Qed.

Lemma partfs_getattr_rejected pdev path :
  __partfs_parse_path path = -1 -> path <> "/" ->
  partfs_getattr pdev path = (- C.ENOENT, None).
Proof.
  intros Hp Hroot. unfold partfs_getattr.
  destruct (String.eqb_spec path "/"); [done|]. by rewrite Hp.
Qed.

(** The stat buffer getattr fills for a path that parses: every field
    depends on the device and on what the table holds at that number. *)
Lemma partfs_getattr_parsed pdev path :
  0 <= __partfs_parse_path path ->
  partfs_getattr pdev path =
    (0, Some (__partfs_stat (st_mode (pdev_st pdev)) 1
                (__fdisk_partition_get_size (pdev_ctx pdev)
                   (fdisk_get_partition (pdev_ctx pdev)
                      (__partfs_parse_path path)))
                (pdev_st pdev))).
Proof.
  intros Hp. unfold partfs_getattr.
  destruct (String.eqb_spec path "/") as [-> | _]; [rewrite parse_root in Hp; lia|].
  replace (__partfs_parse_path path >=? 0) with true
    by (symmetry; apply Z.geb_le; lia).
  assert (Hrange : __partfs_parse_path path <= C.SSIZE_MAX).
  { rewrite parse_path_unfold.
    destruct (strip_prefix "/part_" path); [|done].
    destruct (Scanf.scan_zu s); try done.
    destruct (_ =? _); [|done].
    unfold C.to_ssize_t, C.wrap_signed, C.SSIZE_MAX.
    change (2 ^ (64 - 1)) with (2 ^ 63).
    pose proof (Z.mod_pos_bound (v + 2 ^ 63) (2 ^ 64) ltac:(lia)). lia. }
  rewrite to_size_t_id by (unfold C.SSIZE_MAX, C.SIZE_MAX in *; lia).
  reflexivity.
Qed.


(** C3.  The table of the demo device holds partition 0 only, yet getattr
    on [/part_7] returns 0 and fills the buffer with a file of size 0.  So
    it is for every device and every path that decodes to a number the
    table does not hold: the result of [fdisk_get_partition] is not looked
    at. *)
Theorem partfs_getattr_absent_number :
  (fdisk_get_partition (pdev_ctx demo_device) 7 = None /\
   __partfs_parse_path "/part_7" = 7 /\
   partfs_getattr demo_device "/part_7" =
     (0, Some (__partfs_stat (st_mode demo_image_stat) 1 0 demo_image_stat)))
  /\
  (forall pdev path,
     0 <= __partfs_parse_path path ->
     fdisk_get_partition (pdev_ctx pdev) (__partfs_parse_path path) = None ->
     partfs_getattr pdev path =
       (0, Some (__partfs_stat (st_mode (pdev_st pdev)) 1 0 (pdev_st pdev)))).
Proof.
  split; [repeat split|].
  intros pdev path Hp Habsent.
  rewrite partfs_getattr_parsed by assumption. by rewrite Habsent.
Qed.

Lemma lowest_free_ge fuel fd (fds : gmap Z open_file) :
  fd <= lowest_free fuel fd fds.
Proof.
  revert fd. induction fuel as [|fuel IH]; intros fd; cbn; [lia|].
  destruct (fds !! fd); [|lia]. specialize (IH (fd + 1)). lia.
Qed.

(** No path makes open report [ENOENT]: an error it returns comes from the
    allocation or from opening the device file, before the path is read. *)
Lemma partfs_open_errors pdev path flags w err fh w' :
  partfs_open pdev path flags w = OpenRet err fh w' ->
  err <> 0 ->
  fh = None /\
  (err = - C.ENOMEM /\ w_heap_exhausted w = true \/
   exists e, w_open_error w = Some e /\ err = - e).
Proof.
  unfold partfs_open. intros H Herr.
  destruct (w_heap_exhausted w) eqn:Hheap.
  - injection H as <- <- <-. split; [done|]. by left.
  - unfold sys_open in H. cbn [w_open_error log] in H.
    destruct (w_open_error w) as [e|] eqn:He.
    + cbn [Z.ltb Z.compare] in H. injection H as <- <- <-.
      split; [done|]. right. by exists e.
    + pose proof (lowest_free_ge (size (w_fds w)) 0 (w_fds w)) as Hfd.
      replace (_ <? 0) with false in H by (symmetry; apply Z.ltb_ge; exact Hfd).
      destruct (fdisk_partition_get_start _); [|done].
      injection H as <- _ _. done.
Qed.

(** C5.  On the demo device, opening [/part_7] (a number the table does not
    hold) or [/nonsense] (a name that does not parse) with the allocation
    and the open of the device file both succeeding reaches
    [fdisk_partition_get_start] with a null partition; no error is
    returned.  Whatever the device and the path, the only way for open to
    return [-ENOENT] is that opening the device file itself failed with
    that errno. *)
Theorem partfs_open_unresolved_name :
  partfs_open demo_device "/part_7" O_RDWR demo_world =
    OpenNullDeref
      (set_fd 0 {| of_pos := 0; of_flags := O_RDWR |}
         (log (SysOpen O_RDWR) demo_world)) /\
  partfs_open demo_device "/nonsense" O_RDWR demo_world =
    OpenNullDeref
      (set_fd 0 {| of_pos := 0; of_flags := O_RDWR |}
         (log (SysOpen O_RDWR) demo_world)) /\
  (forall pdev path flags w err fh w',
     partfs_open pdev path flags w = OpenRet err fh w' ->
     err = - C.ENOENT ->
     w_open_error w = Some C.ENOENT).
Proof.
  split; [reflexivity|]. split; [reflexivity|].
  intros pdev path flags w err fh w' Hcall ->.
  destruct (partfs_open_errors _ _ _ _ _ _ _ Hcall ltac:(done))
    as (_ & [[E _] | (e & He & E)]).
  - discriminate E.
  - rewrite He. f_equal. unfold C.ENOENT in *. lia.
Qed.

(** ** What the name parser accepts *)

(** C6, as stated, fails: [/part_ 0] and [/part_+0] are not the prefix
    followed by digits, yet both decode to 0 and getattr finds a file. *)
Lemma parse_path_skips_space_and_sign :
  prefix_then_digits "/part_ 0" = false /\
  __partfs_parse_path "/part_ 0" = 0 /\
  fst (partfs_getattr demo_device "/part_ 0") = 0 /\
  prefix_then_digits "/part_+0" = false /\
  __partfs_parse_path "/part_+0" = 0 /\
  fst (partfs_getattr demo_device "/part_+0") = 0.
Proof. repeat split. Qed.

(** C6, amended.  Decoding matches the whole path: a path that decodes is,
    from its first to its last character, the prefix, then white space (if
    any), then a sign (if any), then one or more decimal digits; and when
    anything that is not a digit follows the digits, decoding yields -1 and
    getattr fails with [ENOENT]. *)
Theorem parse_path_total_match (path : string) :
  C.strlen path <= C.INT_MAX ->
  (__partfs_parse_path path <> -1 ->
   exists ws sg ds, scanned_name path ws sg ds)
  /\
  (forall name ws sg ds c rest,
     scanned_name name ws sg ds ->
     Scanf.isdigit c = false ->
     path = name +:+ String c rest ->
     __partfs_parse_path path = -1 /\
     forall pdev, partfs_getattr pdev path = (- C.ENOENT, None)).
Proof.
  intros Hlen. split.
  - intros H. destruct (parse_inv path Hlen H) as (ws & sg & ds & Hs & _).
    by exists ws, sg, ds.
  - intros name ws sg ds c rest Hname Hc ->.
    assert (Hp : __partfs_parse_path (name +:+ String c rest) = -1)
      by (by apply (parse_trailing name ws sg ds)).
    split; [assumption|]. intros pdev.
    apply partfs_getattr_rejected; [assumption|].
    destruct Hname as (-> & _). rewrite !append_assoc. discriminate.
Qed.

Lemma parse_path_total_match_witness :
  (__partfs_parse_path "/part_0x" <> -1 ->
   exists ws sg ds, scanned_name "/part_0x" ws sg ds)
  /\
  (forall name ws sg ds c rest,
     scanned_name name ws sg ds ->
     Scanf.isdigit c = false ->
     "/part_0x" = name +:+ String c rest ->
     __partfs_parse_path "/part_0x" = -1 /\
     forall pdev, partfs_getattr pdev "/part_0x" = (- C.ENOENT, None)).
Proof.
  apply (parse_path_total_match "/part_0x").
  unfold C.strlen, C.INT_MAX. cbn [String.length]. lia.
Defined.

(** C7, as stated, fails: [/part_007] and [/part_+7] are not the canonical
    name of 7, yet both decode to 7; [/part_00] reaches partition 0. *)
Lemma parse_path_leading_zeros_and_sign :
  "/part_007" <> canonical_path 7 /\
  __partfs_parse_path "/part_007" = 7 /\
  "/part_+7" <> canonical_path 7 /\
  __partfs_parse_path "/part_+7" = 7 /\
  partfs_getattr demo_device "/part_00" =
    partfs_getattr demo_device (canonical_path 0) /\
  fst (partfs_getattr demo_device "/part_00") = 0.
Proof. repeat split; discriminate. Qed.

(** C7, amended.  The paths that decode to a partition number are exactly
    the prefix followed by white space (if any), a sign (if any) and one or
    more decimal digits, leading zeros included, whose value as [%zu]
    converts it is not negative as an [ssize_t]; the path decodes to that
    value.  The canonical name of [n], its decimal digits with no sign and
    no leading zero, is one of them and decodes to [n]. *)
Theorem parse_path_accepted_names (path : string) :
  C.strlen path <= C.INT_MAX ->
  (0 <= __partfs_parse_path path <->
   exists ws sg ds,
     scanned_name path ws sg ds /\
     0 <= C.to_ssize_t (scanned_value sg ds))
  /\
  (forall ws sg ds,
     scanned_name path ws sg ds ->
     __partfs_parse_path path = C.to_ssize_t (scanned_value sg ds))
  /\
  (forall n,
     0 <= n <= C.SSIZE_MAX -> path = canonical_path n ->
     __partfs_parse_path path = n).
Proof.
  intros Hlen. split; [split|split].
  - intros H.
    destruct (parse_inv path Hlen ltac:(lia)) as (ws & sg & ds & Hs & Hv).
    exists ws, sg, ds. split; [assumption | lia].
  - intros (ws & sg & ds & Hs & Hv).
    by rewrite (parse_scanned path ws sg ds Hs).
  - intros ws sg ds Hs. by apply (parse_scanned path ws).
  - intros n Hn ->. by apply parse_canonical_path.
Qed.

Lemma parse_path_accepted_names_witness :
  (0 <= __partfs_parse_path "/part_007" <->
   exists ws sg ds,
     scanned_name "/part_007" ws sg ds /\
     0 <= C.to_ssize_t (scanned_value sg ds))
  /\
  (forall ws sg ds,
     scanned_name "/part_007" ws sg ds ->
     __partfs_parse_path "/part_007" = C.to_ssize_t (scanned_value sg ds))
  /\
  (forall n,
     0 <= n <= C.SSIZE_MAX -> "/part_007" = canonical_path n ->
     __partfs_parse_path "/part_007" = n).
Proof.
  apply (parse_path_accepted_names "/part_007").
  unfold C.strlen, C.INT_MAX. cbn [String.length]. lia.
Defined.

(** ** Metadata of a partition *)




(** ** Listing the root *)

Lemma partfs_readdir_loop_map pdev it buf :
  partfs_readdir_loop pdev it buf =
    buf ++
    map (fun pa =>
           (partfs_name (pa_partno pa),
            Some (__partfs_stat (st_mode (pdev_st pdev)) 1
                    (__fdisk_partition_get_size (pdev_ctx pdev) (Some pa))
                    (pdev_st pdev))))
        it.
Proof.
  revert buf. induction it as [|pa it IH]; intros buf.
  - cbn. by rewrite app_nil_r.
  - cbn [partfs_readdir_loop map]. rewrite IH. unfold fill.
    by rewrite <- app_assoc.
Qed.

Lemma string_take_all (k : nat) s :
  (String.length s <= k)%nat -> Scanf.string_take k s = s.
Proof.
  revert k. induction s as [|c s IH]; intros k H; destruct k; cbn in *;
    try reflexivity; try lia.
  f_equal. apply IH. lia.
Qed.

Lemma partfs_name_untruncated n :
  0 <= n < 10 ^ 10 ->
  partfs_name n = PARTFS_NAME_PREFIX +:+ Scanf.print_zu n.
Proof.
  intros Hn. unfold partfs_name, Scanf.snprintf.
  apply string_take_all. rewrite length_append.
  pose proof (print_zu_length n 10 ltac:(cbn; lia) ltac:(lia) ltac:(lia)).
  cbn [String.length PARTFS_NAME_PREFIX]. lia.
Qed.

Lemma parse_partfs_name n :
  0 <= n < 10 ^ 10 -> __partfs_parse_path ("/" +:+ partfs_name n) = n.
Proof.
  intros Hn. rewrite partfs_name_untruncated by assumption.
  apply parse_canonical_path. unfold C.SSIZE_MAX. lia.
Qed.

Lemma NoDup_map_inj_on {A B} (f : A -> B) (l : list A) :
  (forall x y, In x l -> In y l -> f x = f y -> x = y) ->
  NoDup l -> NoDup (map f l).
Proof.
  intros Hinj Hnd. induction Hnd as [|x l Hx Hnd IH]; cbn; constructor.
  - rewrite list_elem_of_In. intros Hin. apply in_map_iff in Hin as (y & Hy & Hin).
    apply Hx. rewrite list_elem_of_In.
    rewrite (Hinj x y); [assumption | by left | by right | done].
  - apply IH. intros a b Ha Hb. apply Hinj; by right.
Qed.

(** C9.  Listing the root gives [.] with the metadata of the root, [..]
    with no metadata, and then one entry for each partition of the table,
    in the order of the table, named by the name codec; whatever the filler
    already holds, what is added is this same list.  The name of a number
    below 10^10 is the prefix and the number in decimal, and decodes back
    to the number; distinct numbers give distinct names, none of them [.]
    or [..]. *)
Theorem partfs_readdir_root (pdev : partfs_device) (buf : list dirent) :
  partfs_readdir pdev "/" buf =
    (0,
     buf ++
     [(".", Some (__partfs_stat (Z.lor S_IFDIR MODE_0755) 2 0 (pdev_st pdev)));
      ("..", None)] ++
     map (fun pa =>
            (partfs_name (pa_partno pa),
             Some (__partfs_stat (st_mode (pdev_st pdev)) 1
                     (__fdisk_partition_get_size (pdev_ctx pdev) (Some pa))
                     (pdev_st pdev))))
         (cxt_table (pdev_ctx pdev)))
  /\
  (forall pa,
     In pa (cxt_table (pdev_ctx pdev)) ->
     0 <= pa_partno pa < 10 ^ 10 ->
     partfs_name (pa_partno pa) =
       PARTFS_NAME_PREFIX +:+ Scanf.print_zu (pa_partno pa) /\
     __partfs_parse_path ("/" +:+ partfs_name (pa_partno pa)) = pa_partno pa)
  /\
  ((forall pa, In pa (cxt_table (pdev_ctx pdev)) ->
               0 <= pa_partno pa < 10 ^ 10) ->
   NoDup (map pa_partno (cxt_table (pdev_ctx pdev))) ->
   NoDup (map fst (snd (partfs_readdir pdev "/" [])))).
Proof.
  assert (Hrun : forall b, partfs_readdir pdev "/" b =
    (0,
     b ++
     [(".", Some (__partfs_stat (Z.lor S_IFDIR MODE_0755) 2 0 (pdev_st pdev)));
      ("..", None)] ++
     map (fun pa =>
            (partfs_name (pa_partno pa),
             Some (__partfs_stat (st_mode (pdev_st pdev)) 1
                     (__fdisk_partition_get_size (pdev_ctx pdev) (Some pa))
                     (pdev_st pdev))))
         (cxt_table (pdev_ctx pdev)))).
  { intros b. unfold partfs_readdir. cbn [String.eqb Ascii.eqb Bool.eqb andb].
    rewrite partfs_readdir_loop_map. unfold fill, fdisk_get_partitions.
    by rewrite <- !app_assoc. }
  split; [apply Hrun|]. split.
  - intros pa _ Hn. split; [by apply partfs_name_untruncated
                           | by apply parse_partfs_name].
  - intros Hrange Hnd. rewrite Hrun. cbn [snd app map fst].
    rewrite map_map. cbn [fst].
    assert (Hnames : forall pa, In pa (cxt_table (pdev_ctx pdev)) ->
              exists r, partfs_name (pa_partno pa) = String "p" r).
    { intros pa Hpa. rewrite partfs_name_untruncated by (by apply Hrange).
      eexists. reflexivity. }
    constructor; [|constructor].
    + rewrite list_elem_of_In. intros [E | Hin]; [discriminate|].
      apply in_map_iff in Hin as (pa & E & Hpa).
      destruct (Hnames pa Hpa) as (r & Hr). rewrite Hr in E. discriminate.
    + rewrite list_elem_of_In. intros Hin.
      apply in_map_iff in Hin as (pa & E & Hpa).
      destruct (Hnames pa Hpa) as (r & Hr). rewrite Hr in E. discriminate.
    + rewrite <- (map_map pa_partno partfs_name).
      apply NoDup_map_inj_on; [|assumption].
      intros a b Ha Hb E.
      apply in_map_iff in Ha as (pa & <- & Hpa).
      apply in_map_iff in Hb as (pb & <- & Hpb).
      rewrite <- (parse_partfs_name (pa_partno pa)) by (by apply Hrange).
      rewrite <- (parse_partfs_name (pa_partno pb)) by (by apply Hrange).
      by rewrite E.
Qed.

(** ** Opening a partition *)

Lemma lowest_free_spec fuel fd (fds : gmap Z open_file) :
  fds !! lowest_free fuel fd fds = None \/
  ((forall k, fd <= k < fd + Z.of_nat fuel -> is_Some (fds !! k)) /\
   lowest_free fuel fd fds = fd + Z.of_nat fuel).
Proof.
  revert fd. induction fuel as [|fuel IH]; intros fd; cbn [lowest_free].
  - right. split; [intros k Hk; lia | lia].
  - destruct (fds !! fd) eqn:E; [|by left].
    destruct (IH (fd + 1)) as [Hnone | [Hall Heq]]; [by left | right].
    split; [|lia]. intros k Hk.
    destruct (decide (k = fd)) as [-> | Hne]; [by rewrite E | apply Hall; lia].
Qed.

(** The descriptor open(2) hands out was not in use. *)
Lemma lowest_free_unused (fds : gmap Z open_file) :
  fds !! lowest_free (size fds) 0 fds = None.
Proof.
  destruct (lowest_free_spec (size fds) 0 fds) as [H | [Hall Heq]]; [exact H|].
  rewrite Heq, Z.add_0_l.
  set (used := list_to_set (seqZ 0 (Z.of_nat (size fds))) : gset Z).
  assert (Hsub : used ⊆ dom fds).
  { intros k Hk. apply elem_of_list_to_set, elem_of_seqZ in Hk.
    apply elem_of_dom, Hall. lia. }
  assert (Hsize : size used = size fds).
  { unfold used. rewrite size_list_to_set by apply NoDup_seqZ.
    rewrite length_seqZ. lia. }
  apply set_subseteq_size_eq in Hsub; [|rewrite size_dom; lia].
  apply not_elem_of_dom. rewrite <- Hsub. unfold used.
  rewrite elem_of_list_to_set, elem_of_seqZ. lia.
Qed.

Lemma partition_size_in_bytes ctx p sectors :
  pa_size p = Some sectors ->
  0 <= sectors * cxt_sector_size ctx <= C.OFF_MAX ->
  __fdisk_partition_get_size ctx (Some p) = sectors * cxt_sector_size ctx.
Proof.
  intros Hsize Hrange.
  unfold __fdisk_partition_get_size, fdisk_partition_has_size,
    fdisk_partition_get_size, fdisk_get_sector_size.
  rewrite Hsize.
  rewrite to_uint64_id by (unfold C.OFF_MAX, C.SIZE_MAX in *; lia).
  apply to_off_t_id. lia.
Qed.

(** X1.  Opening the canonical name of a partition of the table, when the
    allocation and the open of the device file succeed, returns 0 and a
    session that holds a fresh descriptor at offset 0 with the requested
    flags, the byte offset of the partition and its byte size.  The
    device file is as it was, unless the flags hold [O_TRUNC]: then the
    open has emptied it. *)
Theorem partfs_open_session (pdev : partfs_device) (n : Z)
    (p : fdisk_partition) (sectors flags : Z) (w : world) :
  0 <= n <= C.SSIZE_MAX ->
  fdisk_get_partition (pdev_ctx pdev) n = Some p ->
  pa_size p = Some sectors ->
  0 <= cxt_sector_size (pdev_ctx pdev) * pa_start p <= C.OFF_MAX ->
  0 <= sectors * cxt_sector_size (pdev_ctx pdev) <= C.OFF_MAX ->
  w_heap_exhausted w = false ->
  w_open_error w = None ->
  exists pfi w',
    partfs_open pdev (canonical_path n) flags w = OpenRet 0 (Some pfi) w' /\
    pfi_start pfi = cxt_sector_size (pdev_ctx pdev) * pa_start p /\
    pfi_size pfi = sectors * cxt_sector_size (pdev_ctx pdev) /\
    w_fds w !! pfi_desc pfi = None /\
    w_fds w' !! pfi_desc pfi = Some {| of_pos := 0; of_flags := flags |} /\
    w_file w' = (if truncating flags then [] else w_file w).
Proof.
  intros Hn Hget Hsize Hstart Hbytes Hheap Hopen.
  unfold partfs_open. rewrite Hheap. unfold sys_open.
  cbn [w_open_error log]. rewrite Hopen.
  pose proof (lowest_free_ge (size (w_fds w)) 0 (w_fds w)) as Hfd.
  cbn [w_fds w_file log set_file].
  replace (_ <? 0) with false by (symmetry; apply Z.ltb_ge; exact Hfd).
  rewrite parse_canonical_path by assumption.
  rewrite to_size_t_id by (unfold C.SSIZE_MAX, C.SIZE_MAX in *; lia).
  rewrite Hget. cbn [fdisk_partition_get_start].
  eexists _, _. split; [reflexivity|].
  cbn [pfi_start pfi_size pfi_desc w_fds w_file set_fd set_file log].
  rewrite (partition_size_in_bytes _ p sectors Hsize Hbytes).
  unfold fdisk_get_sector_size.
  rewrite to_uint64_id by (unfold C.OFF_MAX, C.SIZE_MAX in *; lia).
  rewrite to_off_t_id by lia.
  repeat split; [apply lowest_free_unused | apply lookup_insert_eq].
Qed.

Lemma partfs_open_session_witness :
  exists pfi w',
    partfs_open demo_device (canonical_path 0) O_RDWR demo_world
      = OpenRet 0 (Some pfi) w' /\
    pfi_start pfi = cxt_sector_size (pdev_ctx demo_device) * pa_start demo_partition /\
    pfi_size pfi = 4 * cxt_sector_size (pdev_ctx demo_device) /\
    w_fds demo_world !! pfi_desc pfi = None /\
    w_fds w' !! pfi_desc pfi = Some {| of_pos := 0; of_flags := O_RDWR |} /\
    w_file w' = (if truncating O_RDWR then [] else w_file demo_world).
Proof.
  apply (partfs_open_session demo_device 0 demo_partition 4 O_RDWR demo_world);
    first [ reflexivity | cbn; unfold C.SSIZE_MAX, C.OFF_MAX; lia ].
Defined.

(** X2.  getattr on the root returns 0 and a directory record: mode
    [S_IFDIR | 0755], link count 2, size 0, ownership and time stamps of
    the device file. *)
Theorem partfs_getattr_root (pdev : partfs_device) :
  exists st,
    partfs_getattr pdev "/" = (0, Some st) /\
    st_mode st = Z.lor S_IFDIR MODE_0755 /\
    S_ISDIR (st_mode st) = true /\
    st_nlink st = 2 /\
    st_size st = 0 /\
    st_uid st = st_uid (pdev_st pdev) /\
    st_gid st = st_gid (pdev_st pdev) /\
    st_atime st = st_atime (pdev_st pdev) /\
    st_mtime st = st_mtime (pdev_st pdev) /\
    st_ctime st = st_ctime (pdev_st pdev).
Proof. eexists. repeat split. Qed.

(** X3.  Listing any path other than the root fails with [ENOENT] and
    hands nothing to the filler. *)
Theorem partfs_readdir_not_root (pdev : partfs_device) (path : string)
    (buf : list dirent) :
  path <> "/" -> partfs_readdir pdev path buf = (- C.ENOENT, buf).
Proof.
  intros H. unfold partfs_readdir. by destruct (String.eqb_spec path "/").
Qed.

Lemma partfs_readdir_not_root_witness :
  partfs_readdir demo_device "/part_0" [] = (- C.ENOENT, []).
Proof. apply (partfs_readdir_not_root demo_device "/part_0" []). discriminate. Defined.

(** ** The scenario of a 4 MiB image

    Sectors of 512 bytes, partition 0 from sector 2048, 6144 sectors long:
    3145728 bytes from byte 1048576 on. *)

Example scenario_size :
  __fdisk_partition_get_size
    {| cxt_sector_size := 512;
       cxt_table := [{| pa_partno := 0; pa_start := 2048; pa_size := Some 6144 |}] |}
    (Some {| pa_partno := 0; pa_start := 2048; pa_size := Some 6144 |})
  = 3145728.
Proof. reflexivity. Qed.

Example scenario_clamped_write (w : world) (f : open_file)
    (buf : list Byte.byte) :
  let pfi := {| pfi_desc := 5; pfi_start := 2048 * 512; pfi_size := 3145728 |} in
  w_fds w !! 5 = Some f -> writable f = true -> length buf = 100%nat ->
  exists w',
    partfs_write pfi buf 100 3145700 w = (28, w') /\
    w_trace w' = w_trace w ++ [SysLseek 5 4194276; SysWrite 5 28].
Proof.
  intros pfi Hfd Hwr Hbuf.
  rewrite (partfs_write_in_range_any pfi w f Hfd)
    by first [ exact Hwr | subst pfi; cbn; unfold C.OFF_MAX; lia ].
  subst pfi.
  cbn zeta. cbn [pfi_size pfi_start pfi_desc].
  change (Z.to_nat (Z.min (3145728 - 3145700) 100)) with 28%nat.
  rewrite length_take, Hbuf.
  eexists. split; [reflexivity|].
  cbn [w_trace log set_fd set_file]. by rewrite <- app_assoc.
Qed.

Example scenario_write_beyond_end (w : world) (buf : list Byte.byte) :
  partfs_write {| pfi_desc := 5; pfi_start := 2048 * 512; pfi_size := 3145728 |}
    buf 1 3145729 w = (- C.EFBIG, w).
Proof. apply partfs_write_beyond_end; cbn; lia. Qed.

(** ** Sessions from open to release *)

(** What open stores for the canonical name of a partition of the table. *)
Lemma partfs_open_resolved pdev n p sectors flags w :
  0 <= n <= C.SSIZE_MAX ->
  fdisk_get_partition (pdev_ctx pdev) n = Some p ->
  pa_size p = Some sectors ->
  0 <= cxt_sector_size (pdev_ctx pdev) * pa_start p <= C.OFF_MAX ->
  0 <= sectors * cxt_sector_size (pdev_ctx pdev) <= C.OFF_MAX ->
  w_heap_exhausted w = false ->
  w_open_error w = None ->
  partfs_open pdev (canonical_path n) flags w =
    OpenRet 0
      (Some {| pfi_desc := lowest_free (size (w_fds w)) 0 (w_fds w);
               pfi_start := cxt_sector_size (pdev_ctx pdev) * pa_start p;
               pfi_size := sectors * cxt_sector_size (pdev_ctx pdev) |})
      (set_fd (lowest_free (size (w_fds w)) 0 (w_fds w))
         {| of_pos := 0; of_flags := flags |}
         (set_file (if truncating flags then [] else w_file w)
            (log (SysOpen flags) w))).
Proof.
  intros Hn Hget Hsize Hstart Hbytes Hheap Hopen.
  unfold partfs_open. rewrite Hheap. unfold sys_open.
  cbn [w_open_error log]. rewrite Hopen.
  pose proof (lowest_free_ge (size (w_fds w)) 0 (w_fds w)) as Hfd.
  cbn [w_fds w_file log set_file].
  replace (_ <? 0) with false by (symmetry; apply Z.ltb_ge; exact Hfd).
  rewrite parse_canonical_path by assumption.
  rewrite to_size_t_id by (unfold C.SSIZE_MAX, C.SIZE_MAX in *; lia).
  rewrite Hget. cbn [fdisk_partition_get_start].
  rewrite (partition_size_in_bytes _ p sectors Hsize Hbytes).
  unfold fdisk_get_sector_size.
  rewrite to_uint64_id by (unfold C.OFF_MAX, C.SIZE_MAX in *; lia).
  rewrite to_off_t_id by lia.
  reflexivity.
Qed.

(** X4.  Release closes the descriptor of the session and nothing else: it
    returns 0, the descriptor is gone from the table, every other
    descriptor and the device file are as they were.  When the descriptor
    is not open, release returns [-EBADF] and the table is as it was.
    Either way the session has been freed. *)
Theorem partfs_release_closes (pfi : partfs_file) (w : world) :
  (forall f, w_fds w !! pfi_desc pfi = Some f ->
     exists w',
       partfs_release (Allocated pfi) w = ReleaseRet 0 Freed w' /\
       w_fds w' !! pfi_desc pfi = None /\
       (forall fd, fd <> pfi_desc pfi -> w_fds w' !! fd = w_fds w !! fd) /\
       w_file w' = w_file w)
  /\
  (w_fds w !! pfi_desc pfi = None ->
     exists w',
       partfs_release (Allocated pfi) w = ReleaseRet (- C.EBADF) Freed w' /\
       w_fds w' = w_fds w /\ w_file w' = w_file w).
Proof.
  unfold partfs_release, sys_close. split.
  - intros f Hf. rewrite Hf. eexists. split; [reflexivity|].
    cbn [w_fds w_file]. split; [apply lookup_delete_eq|].
    split; [|reflexivity]. intros fd Hne. by apply lookup_delete_ne.
  - intros Hf. rewrite Hf. eexists. split; [reflexivity|]. by split.
Qed.

(** X5.  Opening a partition and releasing the session leaves the
    descriptor table as it was before the open, and the device file too
    unless the flags held [O_TRUNC].  The release has freed the session:
    releasing it once more does not fail with an error, it reads and frees
    a block that is already freed. *)
Theorem partfs_open_release (pdev : partfs_device) (n : Z)
    (p : fdisk_partition) (sectors flags : Z) (w : world) :
  0 <= n <= C.SSIZE_MAX ->
  fdisk_get_partition (pdev_ctx pdev) n = Some p ->
  pa_size p = Some sectors ->
  0 <= cxt_sector_size (pdev_ctx pdev) * pa_start p <= C.OFF_MAX ->
  0 <= sectors * cxt_sector_size (pdev_ctx pdev) <= C.OFF_MAX ->
  w_heap_exhausted w = false ->
  w_open_error w = None ->
  exists pfi w1 blk w2,
    partfs_open pdev (canonical_path n) flags w = OpenRet 0 (Some pfi) w1 /\
    partfs_release (Allocated pfi) w1 = ReleaseRet 0 blk w2 /\
    w_fds w2 = w_fds w /\
    w_file w2 = (if truncating flags then [] else w_file w) /\
    partfs_release blk w2 = ReleaseUseAfterFree.
Proof.
  intros Hn Hget Hsize Hstart Hbytes Hheap Hopen.
  rewrite (partfs_open_resolved pdev n p sectors flags w) by assumption.
  pose proof (lowest_free_unused (w_fds w)) as Hfree.
  set (fd := lowest_free (size (w_fds w)) 0 (w_fds w)) in *.
  eexists _, _, _, _. split; [reflexivity|].
  unfold partfs_release at 1. unfold sys_close.
  cbn [pfi_desc w_fds set_fd set_file log]. rewrite lookup_insert_eq.
  cbn [Z.eqb]. split; [reflexivity|].
  cbn [w_fds w_file set_fd set_file log].
  rewrite delete_insert_eq, (delete_id _ _ Hfree).
  repeat split.
Qed.

Lemma partfs_open_release_witness :
  exists pfi w1 blk w2,
    partfs_open demo_device (canonical_path 0) O_RDONLY demo_world
      = OpenRet 0 (Some pfi) w1 /\
    partfs_release (Allocated pfi) w1 = ReleaseRet 0 blk w2 /\
    w_fds w2 = w_fds demo_world /\
    w_file w2 = (if truncating O_RDONLY then [] else w_file demo_world) /\
    partfs_release blk w2 = ReleaseUseAfterFree.
Proof.
  apply (partfs_open_release demo_device 0 demo_partition 4 O_RDONLY
           demo_world);
    first [ reflexivity | cbn; unfold C.SSIZE_MAX, C.OFF_MAX; lia ].
Defined.

(** X6.  How open fails.  When the allocation fails it returns [-ENOMEM]
    before any system call.  When opening the device file fails with errno
    [e] it returns [-e]; no session is stored, no descriptor is added and
    the device file is as it was.  Neither depends on the path. *)
Theorem partfs_open_failures (pdev : partfs_device) (path : string)
    (flags : Z) (w : world) :
  (w_heap_exhausted w = true ->
   partfs_open pdev path flags w = OpenRet (- C.ENOMEM) None w)
  /\
  (forall e, w_heap_exhausted w = false -> w_open_error w = Some e ->
     exists w',
       partfs_open pdev path flags w = OpenRet (- e) None w' /\
       w_fds w' = w_fds w /\
       w_file w' = w_file w /\
       w_trace w' = w_trace w ++ [SysOpen flags]).
Proof.
  unfold partfs_open. split.
  - intros ->. reflexivity.
  - intros e -> He. unfold sys_open. cbn [w_open_error log]. rewrite He.
    cbn [Z.ltb Z.compare]. eexists. split; [reflexivity|]. repeat split.
Qed.

(** X7.  Two opens give two sessions on different descriptors, each at
    file offset 0 with the flags of its own open: the second open does not
    disturb the first session. *)
Theorem partfs_open_twice (pdev : partfs_device) (n1 n2 : Z)
    (p1 p2 : fdisk_partition) (sectors1 sectors2 flags1 flags2 : Z)
    (w : world) :
  0 <= n1 <= C.SSIZE_MAX ->
  0 <= n2 <= C.SSIZE_MAX ->
  fdisk_get_partition (pdev_ctx pdev) n1 = Some p1 ->
  fdisk_get_partition (pdev_ctx pdev) n2 = Some p2 ->
  pa_size p1 = Some sectors1 ->
  pa_size p2 = Some sectors2 ->
  0 <= cxt_sector_size (pdev_ctx pdev) * pa_start p1 <= C.OFF_MAX ->
  0 <= cxt_sector_size (pdev_ctx pdev) * pa_start p2 <= C.OFF_MAX ->
  0 <= sectors1 * cxt_sector_size (pdev_ctx pdev) <= C.OFF_MAX ->
  0 <= sectors2 * cxt_sector_size (pdev_ctx pdev) <= C.OFF_MAX ->
  w_heap_exhausted w = false ->
  w_open_error w = None ->
  exists pfi1 w1 pfi2 w2,
    partfs_open pdev (canonical_path n1) flags1 w = OpenRet 0 (Some pfi1) w1 /\
    partfs_open pdev (canonical_path n2) flags2 w1 = OpenRet 0 (Some pfi2) w2 /\
    pfi_desc pfi1 <> pfi_desc pfi2 /\
    w_fds w2 !! pfi_desc pfi1 = Some {| of_pos := 0; of_flags := flags1 |} /\
    w_fds w2 !! pfi_desc pfi2 = Some {| of_pos := 0; of_flags := flags2 |}.
Proof.
  intros Hn1 Hn2 Hg1 Hg2 Hs1 Hs2 Hst1 Hst2 Hb1 Hb2 Hheap Hopen.
  rewrite (partfs_open_resolved pdev n1 p1 sectors1 flags1 w) by assumption.
  eexists _, _. 
  match goal with |- context [OpenRet 0 _ ?x = _] => set (w1 := x) end.
  rewrite (partfs_open_resolved pdev n2 p2 sectors2 flags2 w1) by assumption.
  eexists _, _. split; [reflexivity|]. split; [reflexivity|].
  cbn [pfi_desc].
  pose proof (lowest_free_unused (w_fds w1)) as Hfree2.
  set (fd1 := lowest_free (size (w_fds w)) 0 (w_fds w)) in *.
  set (fd2 := lowest_free (size (w_fds w1)) 0 (w_fds w1)) in *.
  assert (Hfd1 : w_fds w1 !! fd1 = Some {| of_pos := 0; of_flags := flags1 |})
    by (subst w1; cbn [w_fds set_fd]; apply lookup_insert_eq).
  assert (Hne : fd1 <> fd2) by (intros E; rewrite E in Hfd1; congruence).
  split; [exact Hne|]. cbn [w_fds set_fd log].
  split; [rewrite lookup_insert_ne by done; exact Hfd1 | apply lookup_insert_eq].
Qed.

Lemma partfs_open_twice_witness :
  exists pfi1 w1 pfi2 w2,
    partfs_open demo_device (canonical_path 0) O_RDONLY demo_world
      = OpenRet 0 (Some pfi1) w1 /\
    partfs_open demo_device (canonical_path 0) O_RDWR w1
      = OpenRet 0 (Some pfi2) w2 /\
    pfi_desc pfi1 <> pfi_desc pfi2 /\
    w_fds w2 !! pfi_desc pfi1 = Some {| of_pos := 0; of_flags := O_RDONLY |} /\
    w_fds w2 !! pfi_desc pfi2 = Some {| of_pos := 0; of_flags := O_RDWR |}.
Proof.
  apply (partfs_open_twice demo_device 0 0 demo_partition demo_partition
           4 4 O_RDONLY O_RDWR demo_world);
    first [ reflexivity | cbn; unfold C.SSIZE_MAX, C.OFF_MAX; lia ].
Defined.

(** ** What reading and writing leave alone *)

Ltac io_cases H :=
  unfold partfs_read, partfs_write, partfs_lseek, sys_lseek, sys_read,
    sys_write in H;
  cbn [w_fds w_file w_errno log set_fd set_errno set_file] in H;
  repeat
    (match type of H with
     | context [if ?c then _ else _] => destruct c eqn:?
     | context [match ?m !! ?k with _ => _ end] => destruct (m !! k) eqn:?
     end;
     cbn [w_fds w_file w_errno log set_fd set_errno set_file Z.eqb Z.geb
          Z.compare negb] in H;
     rewrite ?lookup_insert_eq in H);
  try discriminate.

(** X8.  A read never changes the device file.  Neither a read nor a write
    opens or closes a descriptor, changes the access mode of the session's
    descriptor, or touches any other descriptor. *)
Theorem partfs_io_isolation (pfi : partfs_file) (buf : list Byte.byte)
    (len off : Z) (w : world) :
  (forall ret data w',
     partfs_read pfi len off w = (ret, data, w') ->
     w_file w' = w_file w /\
     (forall fd, fd <> pfi_desc pfi -> w_fds w' !! fd = w_fds w !! fd) /\
     of_flags <$> (w_fds w' !! pfi_desc pfi)
       = of_flags <$> (w_fds w !! pfi_desc pfi))
  /\
  (forall ret w',
     partfs_write pfi buf len off w = (ret, w') ->
     (forall fd, fd <> pfi_desc pfi -> w_fds w' !! fd = w_fds w !! fd) /\
     of_flags <$> (w_fds w' !! pfi_desc pfi)
       = of_flags <$> (w_fds w !! pfi_desc pfi)).
Proof.
  split.
  - intros ret data w' H. io_cases H; injection H as <- <- <-;
      cbn [w_fds w_file log set_fd set_errno];
      (split; [reflexivity|]); (split; [intros fd Hne; by rewrite ?lookup_insert_ne by done|]);
      rewrite ?lookup_insert_eq;
      repeat match goal with E : _ !! _ = _ |- _ => rewrite E end; reflexivity.
  - intros ret w' H. io_cases H; injection H as <- <-;
      cbn [w_fds w_file log set_fd set_errno set_file];
      (split; [intros fd Hne; by rewrite ?lookup_insert_ne by done|]);
      rewrite ?lookup_insert_eq;
      repeat match goal with E : _ !! _ = _ |- _ => rewrite E end; reflexivity.
Qed.

(** ** Bytes of the device file, one at a time *)

Lemma write_at_lookup (pos : nat) (data file : list Byte.byte) (i : nat) :
  data <> [] ->
  write_at pos data file !! i =
    if decide (i < pos)%nat then
      if decide (i < length file)%nat then file !! i else Some Byte.x00
    else if decide (i < pos + length data)%nat then data !! (i - pos)%nat
    else file !! i.
Proof.
  intros Hne. unfold write_at. destruct data as [|b data]; [done|].
  set (d := b :: data) in *.
  rewrite (app_assoc (take pos file)).
  pose proof (write_at_length_prefix pos file) as Hpre.
  destruct (decide (i < pos)%nat) as [Hlt | Hge].
  - rewrite lookup_app_l by lia.
    destruct (decide (i < length file)%nat) as [Hin | Hout].
    + rewrite lookup_app_l by (rewrite length_take; lia).
      by apply lookup_take_lt.
    + rewrite lookup_app_r by (rewrite length_take; lia).
      apply lookup_replicate_2. rewrite length_take. lia.
  - rewrite lookup_app_r by lia. rewrite Hpre.
    destruct (decide (i < pos + length d)%nat) as [Hin | Hout].
    + by rewrite lookup_app_l by lia.
    + rewrite lookup_app_r by lia. rewrite lookup_drop. f_equal. lia.
Qed.

Lemma length_write_at (pos : nat) (data file : list Byte.byte) :
  data <> [] ->
  length (write_at pos data file) = (length file `max` (pos + length data))%nat.
Proof.
  intros Hne. unfold write_at. destruct data as [|b data]; [done|].
  rewrite !length_app, length_take, length_replicate, length_drop. lia.
Qed.

(** Storing inside the file changes the bytes stored over and nothing
    else. *)
Lemma write_at_inside (pos : nat) (data file : list Byte.byte) :
  (pos + length data <= length file)%nat ->
  length (write_at pos data file) = length file /\
  forall i, (i < pos \/ pos + length data <= i)%nat ->
            write_at pos data file !! i = file !! i.
Proof.
  intros Hfit. destruct (decide (data = [])) as [-> | Hne]; [by split|].
  split; [rewrite length_write_at by done; lia|].
  intros i Hi. rewrite write_at_lookup by done.
  repeat case_decide; try lia; reflexivity.
Qed.

(** Storing [b1] and then [b2] right after it is storing [b1 ++ b2]. *)
Lemma write_at_app (pos : nat) (b1 b2 file : list Byte.byte) :
  write_at (pos + length b1) b2 (write_at pos b1 file) =
  write_at pos (b1 ++ b2) file.
Proof.
  destruct (decide (b1 = [])) as [-> | H1].
  { cbn [length app write_at]. by rewrite Nat.add_0_r. }
  destruct (decide (b2 = [])) as [-> | H2].
  { by rewrite app_nil_r. }
  assert (H12 : b1 ++ b2 <> []) by (by destruct b1).
  apply list_eq. intros i.
  rewrite !write_at_lookup by done.
  rewrite length_write_at, length_app by done.
  repeat case_decide; try lia; try reflexivity.
  - by rewrite lookup_app_l by lia.
  - rewrite lookup_app_r by lia. f_equal. lia.
Qed.

Lemma lookup_take_drop {A} (n p : nat) (l : list A) (j : nat) :
  take n (drop p l) !! j = if decide (j < n)%nat then l !! (p + j)%nat else None.
Proof.
  case_decide.
  - rewrite lookup_take_lt by done. apply lookup_drop.
  - apply lookup_take_ge. lia.
Qed.

(** ** Errors of the device file, as reads and writes report them *)

(** X9.  On a session whose descriptor is not open, a read at an offset
    inside the partition reports the error of the seek, [-EBADF], while a
    write reports [-EFBIG]: write turns every failed seek at a
    non-negative offset into "file too large".  Neither changes the device
    file. *)
Theorem partfs_io_closed_descriptor (pfi : partfs_file)
    (buf : list Byte.byte) (len off : Z) (w : world) :
  w_fds w !! pfi_desc pfi = None ->
  0 <= off <= pfi_size pfi ->
  exists w1 w2,
    partfs_read pfi len off w = (- C.EBADF, [], w1) /\
    w_file w1 = w_file w /\
    partfs_write pfi buf len off w = (- C.EFBIG, w2) /\
    w_file w2 = w_file w.
Proof.
  intros Hfd Hoff.
  assert (Hseek : partfs_lseek pfi off w =
            (- C.EBADF,
             set_errno C.EBADF
               (log (SysLseek (pfi_desc pfi)
                       (C.to_off_t (pfi_start pfi + off))) w))).
  { unfold partfs_lseek.
    replace (off >=? 0) with true by (symmetry; apply Z.geb_le; lia).
    replace (off <=? pfi_size pfi) with true by (symmetry; apply Z.leb_le; lia).
    cbn [andb]. unfold sys_lseek. cbn [w_fds log]. rewrite Hfd. reflexivity. }
  unfold partfs_read, partfs_write. rewrite Hseek.
  replace (off >=? 0) with true by (symmetry; apply Z.geb_le; lia).
  eexists _, _. repeat split.
Qed.

Lemma partfs_io_closed_descriptor_witness :
  exists w1 w2,
    partfs_read demo_stale_session 4 2 demo_world = (- C.EBADF, [], w1) /\
    w_file w1 = w_file demo_world /\
    partfs_write demo_stale_session [Byte.xaa] 1 2 demo_world
      = (- C.EFBIG, w2) /\
    w_file w2 = w_file demo_world.
Proof.
  apply (partfs_io_closed_descriptor demo_stale_session [Byte.xaa] 1 2
           demo_world); [reflexivity | cbn; lia].
Defined.

(** X10.  A read through a descriptor that is not open for reading fails
    with [-EBADF] and hands back no bytes; a write through a descriptor
    that is not open for writing fails with [-EBADF]; the device file is
    unchanged either way. *)
Theorem partfs_io_access_mode (pfi : partfs_file) (w : world)
    (f : open_file) (buf : list Byte.byte) (len off : Z) :
  w_fds w !! pfi_desc pfi = Some f ->
  0 <= pfi_start pfi ->
  pfi_start pfi + pfi_size pfi <= C.OFF_MAX ->
  0 <= off <= pfi_size pfi ->
  (readable f = false ->
   exists w', partfs_read pfi len off w = (- C.EBADF, [], w') /\
              w_file w' = w_file w)
  /\
  (writable f = false ->
   exists w', partfs_write pfi buf len off w = (- C.EBADF, w') /\
              w_file w' = w_file w).
Proof.
  intros Hfd Hstart Hend Hoff. split; intros Hmode.
  - unfold partfs_read.
    rewrite (partfs_lseek_in_range pfi w f Hfd Hstart Hend off Hoff).
    cbn [Z.eqb]. unfold sys_read. cbn [w_fds log set_fd].
    rewrite lookup_insert_eq.
    replace (readable _) with false by (symmetry; exact Hmode).
    eexists. split; reflexivity.
  - unfold partfs_write.
    rewrite (partfs_lseek_in_range pfi w f Hfd Hstart Hend off Hoff).
    replace (off >=? 0) with true by (symmetry; apply Z.geb_le; lia).
    cbn [Z.eqb negb]. unfold sys_write. cbn [w_fds log set_fd].
    rewrite lookup_insert_eq.
    replace (writable _) with false by (symmetry; exact Hmode).
    eexists. split; reflexivity.
Qed.

Lemma partfs_io_access_mode_witness :
  exists w',
    partfs_read demo_session 4 2 (demo_world_with O_WRONLY)
      = (- C.EBADF, [], w') /\
    w_file w' = w_file (demo_world_with O_WRONLY).
Proof.
  apply (partfs_io_access_mode demo_session (demo_world_with O_WRONLY)
           {| of_pos := 0; of_flags := O_WRONLY |} [] 4 2);
    first [ reflexivity | cbn; unfold C.OFF_MAX; lia ].
Defined.

(** ** Writes stay inside the partition *)

Lemma partfs_write_file_cases pfi buf len off w ret w' :
  partfs_write pfi buf len off w = (ret, w') ->
  w_file w' = w_file w \/
  (0 <= off <= pfi_size pfi /\
   0 <= C.to_off_t (pfi_start pfi + off) /\
   exists f,
     w_fds w !! pfi_desc pfi = Some f /\
     w_file w' =
       write_at
         (Z.to_nat (if appending f then Z.of_nat (length (w_file w))
                    else C.to_off_t (pfi_start pfi + off)))
         (take (Z.to_nat (C.MIN (pfi_size pfi - off) len)) buf) (w_file w)).
Proof.
  intros H. io_cases H; injection H as <- <-;
    cbn [w_file set_fd set_file set_errno log of_pos];
    try (by left).
  all: right.
  all: repeat match goal with
    | E : ((_ >=? _) && _) = true |- _ => apply andb_prop in E as [? ?]
    | E : (_ >=? _) = true |- _ => apply Z.geb_le in E
    | E : (_ <=? _) = true |- _ => apply Z.leb_le in E
    | E : (_ <? 0) = false |- _ => apply Z.ltb_ge in E
    end.
  all: split; [lia|]; split; [assumption|].
  all: eexists; split; [reflexivity|].
  all: rewrite <- write_at_landing.
  all: match goal with
    | E : (appending _ && _) = _ |- _ =>
        unfold appending in *; cbn [of_flags] in *; by rewrite E
    end.
Qed.

(** X11.  When the partition lies inside the device file and the
    descriptor of the session is not in append mode, no write through the
    session changes a byte outside the range it was asked to write,
    [start + off, start + off + min (size - off) len), and so none outside
    the partition; nor does it change the length of the device file.  This
    holds whatever the call returns. *)
Theorem partfs_write_confined (pfi : partfs_file) (buf : list Byte.byte)
    (len off : Z) (w w' : world) (ret : Z) :
  0 <= pfi_start pfi ->
  pfi_start pfi + pfi_size pfi <= Z.of_nat (length (w_file w)) ->
  pfi_start pfi + pfi_size pfi <= C.OFF_MAX ->
  append_mode pfi w = false ->
  partfs_write pfi buf len off w = (ret, w') ->
  length (w_file w') = length (w_file w) /\
  (forall i : nat,
     Z.of_nat i < pfi_start pfi + off \/
     pfi_start pfi + off + Z.min (pfi_size pfi - off) len <= Z.of_nat i ->
     w_file w' !! i = w_file w !! i) /\
  (forall i : nat,
     Z.of_nat i < pfi_start pfi \/
     pfi_start pfi + pfi_size pfi <= Z.of_nat i ->
     w_file w' !! i = w_file w !! i).
Proof.
  intros Hstart Hfile Hend Happ Hcall.
  destruct (partfs_write_file_cases _ _ _ _ _ _ _ Hcall)
    as [-> | (Hoff & _ & f & Hf & ->)]; [by repeat split|].
  unfold append_mode in Happ. rewrite Hf in Happ. rewrite Happ.
  rewrite to_off_t_id by (unfold C.OFF_MAX in *; lia).
  rewrite MIN_min by (unfold C.OFF_MAX in *; lia).
  set (data := take (Z.to_nat (Z.min (pfi_size pfi - off) len)) buf).
  assert (Hlen : (length data <= Z.to_nat (Z.min (pfi_size pfi - off) len))%nat)
    by apply take_length_le.
  destruct (write_at_inside (Z.to_nat (pfi_start pfi + off)) data (w_file w))
    as [Hl Hout]; [lia|].
  split; [exact Hl|]. split; intros i Hi; apply Hout; lia.
Qed.

Lemma partfs_write_confined_witness :
  length (w_file (snd (partfs_write demo_session [Byte.xaa; Byte.xbb] 2 6
                         demo_world)))
    = length (w_file demo_world) /\
  (forall i : nat,
     Z.of_nat i < pfi_start demo_session + 6 \/
     pfi_start demo_session + 6 + Z.min (pfi_size demo_session - 6) 2
       <= Z.of_nat i ->
     w_file (snd (partfs_write demo_session [Byte.xaa; Byte.xbb] 2 6
                    demo_world)) !! i
       = w_file demo_world !! i) /\
  (forall i : nat,
     Z.of_nat i < pfi_start demo_session \/
     pfi_start demo_session + pfi_size demo_session <= Z.of_nat i ->
     w_file (snd (partfs_write demo_session [Byte.xaa; Byte.xbb] 2 6
                    demo_world)) !! i
       = w_file demo_world !! i).
Proof.
  apply (partfs_write_confined demo_session [Byte.xaa; Byte.xbb] 2 6
           demo_world _
           (fst (partfs_write demo_session [Byte.xaa; Byte.xbb] 2 6
                   demo_world)));
    first [ reflexivity | cbn; unfold C.OFF_MAX; lia ].
Defined.

(** ** How reads and writes combine *)

Lemma take_drop_frame (n p : nat) (l l' : list Byte.byte) :
  (forall j, (j < n)%nat -> l' !! (p + j)%nat = l !! (p + j)%nat) ->
  take n (drop p l') = take n (drop p l).
Proof.
  intros H. apply list_eq. intros j. rewrite !lookup_take_drop.
  case_decide; [by apply H | reflexivity].
Qed.

(** X12.  A write through a session that is not in append mode and whose
    partition lies inside the device file does not change what a read of a
    disjoint range of the device file returns, through the same session or
    through any other: such sessions on partitions that do not overlap
    never see each other's writes. *)
Theorem partfs_write_read_frame (pa pb : partfs_file) (w : world)
    (fa fb : open_file) (buf : list Byte.byte) (lenw offw lenr offr : Z) :
  w_fds w !! pfi_desc pa = Some fa ->
  writable fa = true ->
  appending fa = false ->
  w_fds w !! pfi_desc pb = Some fb ->
  readable fb = true ->
  0 <= pfi_start pa ->
  pfi_start pa + pfi_size pa <= Z.of_nat (length (w_file w)) ->
  pfi_start pa + pfi_size pa <= C.OFF_MAX ->
  0 <= pfi_start pb ->
  pfi_start pb + pfi_size pb <= C.OFF_MAX ->
  0 <= offw <= pfi_size pa ->
  0 <= offr <= pfi_size pb ->
  pfi_start pb + offr + Z.min (pfi_size pb - offr) lenr
    <= pfi_start pa + offw \/
  pfi_start pa + offw + Z.min (pfi_size pa - offw) lenw
    <= pfi_start pb + offr ->
  exists r0 data w0 rw w1 r1 w2,
    partfs_read pb lenr offr w = (r0, data, w0) /\
    partfs_write pa buf lenw offw w = (rw, w1) /\
    partfs_read pb lenr offr w1 = (r1, data, w2).
Proof.
  intros Hfa Hwr Happ Hfb Hrd Hsa Hfile Hea Hsb Heb Hoffw Hoffr Hdisj.
  pose proof (partfs_read_in_range pb w fb Hfb Hsb Heb lenr offr Hrd Hoffr)
    as Hr0.
  pose proof (partfs_write_in_range pa w fa Hfa Hsa Hea buf lenw offw Hwr Happ
                Hoffw) as Hw.
  cbn zeta in Hr0, Hw.
  match type of Hw with _ = (_, ?x) => set (w1 := x) in * end.
  assert (Hfb1 : exists fb', w_fds w1 !! pfi_desc pb = Some fb' /\
                             of_flags fb' = of_flags fb).
  { subst w1. cbn [w_fds set_fd set_file log].
    destruct (decide (pfi_desc pa = pfi_desc pb)) as [E | Hne].
    - rewrite E, lookup_insert_eq. eexists. split; [reflexivity|].
      rewrite E in Hfa. cbn. congruence.
    - rewrite !lookup_insert_ne by done. by exists fb. }
  destruct Hfb1 as (fb' & Hfb' & Hflags).
  assert (Hrd' : readable fb' = true) by (unfold readable in *; by rewrite Hflags).
  pose proof (partfs_read_in_range pb w1 fb' Hfb' Hsb Heb lenr offr Hrd' Hoffr)
    as Hr1.
  cbn zeta in Hr1.
  set (dataw := take (Z.to_nat (Z.min (pfi_size pa - offw) lenw)) buf) in *.
  assert (Hlen : (length dataw <= Z.to_nat (Z.min (pfi_size pa - offw) lenw))%nat)
    by apply take_length_le.
  assert (Hfile1 : w_file w1 =
            write_at (Z.to_nat (pfi_start pa + offw)) dataw (w_file w))
    by reflexivity.
  destruct (write_at_inside (Z.to_nat (pfi_start pa + offw)) dataw (w_file w))
    as [_ Hout]; [lia|].
  assert (Hsame :
    take (Z.to_nat (Z.min (pfi_size pb - offr) lenr))
      (drop (Z.to_nat (pfi_start pb + offr)) (w_file w1)) =
    take (Z.to_nat (Z.min (pfi_size pb - offr) lenr))
      (drop (Z.to_nat (pfi_start pb + offr)) (w_file w))).
  { apply take_drop_frame. intros j Hj. rewrite Hfile1. apply Hout. lia. }
  rewrite Hsame in Hr1.
  eexists _, _, _, _, _, _, _.
  split; [exact Hr0|]. split; [exact Hw | exact Hr1].
Qed.

Lemma partfs_write_read_frame_witness :
  exists r0 data w0 rw w1 r1 w2,
    partfs_read demo_session 3 4 demo_world = (r0, data, w0) /\
    partfs_write demo_session [Byte.xaa; Byte.xbb] 2 0 demo_world = (rw, w1) /\
    partfs_read demo_session 3 4 w1 = (r1, data, w2).
Proof.
  apply (partfs_write_read_frame demo_session demo_session demo_world
           demo_open_file demo_open_file [Byte.xaa; Byte.xbb] 2 0 3 4);
    first [ reflexivity | cbn; unfold C.OFF_MAX; lia ].
Defined.

(** X13.  Reading in two pieces gives the same bytes as reading once: a
    read of [l1 + l2] bytes at [off] returns what a read of [l1] bytes at
    [off] followed by a read of [l2] bytes at [off + l1] return, one after
    the other. *)
Theorem partfs_read_in_pieces (pfi : partfs_file) (w : world)
    (f : open_file) (off l1 l2 : Z) :
  w_fds w !! pfi_desc pfi = Some f ->
  readable f = true ->
  0 <= pfi_start pfi ->
  pfi_start pfi + pfi_size pfi <= C.OFF_MAX ->
  0 <= off -> 0 <= l1 -> 0 <= l2 ->
  off + l1 <= pfi_size pfi ->
  exists r d w' r1 d1 w1 r2 d2 w2,
    partfs_read pfi (l1 + l2) off w = (r, d, w') /\
    partfs_read pfi l1 off w = (r1, d1, w1) /\
    partfs_read pfi l2 (off + l1) w1 = (r2, d2, w2) /\
    d = d1 ++ d2.
Proof.
  intros Hfd Hrd Hstart Hend Hoff Hl1 Hl2 Hfit.
  pose proof (partfs_read_in_range pfi w f Hfd Hstart Hend (l1 + l2) off Hrd
                ltac:(lia)) as Hwhole.
  pose proof (partfs_read_in_range pfi w f Hfd Hstart Hend l1 off Hrd
                ltac:(lia)) as Hfirst.
  cbn zeta in Hwhole, Hfirst.
  match type of Hfirst with _ = (_, _, ?x) => set (w1 := x) in * end.
  assert (Hfd1 : exists f1, w_fds w1 !! pfi_desc pfi = Some f1 /\
                            of_flags f1 = of_flags f).
  { subst w1. cbn [w_fds set_fd log]. rewrite lookup_insert_eq.
    eexists. split; reflexivity. }
  destruct Hfd1 as (f1 & Hf1 & Hflags).
  assert (Hrd1 : readable f1 = true) by (unfold readable in *; by rewrite Hflags).
  pose proof (partfs_read_in_range pfi w1 f1 Hf1 Hstart Hend l2 (off + l1) Hrd1
                ltac:(lia)) as Hsecond.
  cbn zeta in Hsecond.
  eexists _, _, _, _, _, _, _, _, _.
  split; [exact Hwhole|]. split; [exact Hfirst|]. split; [exact Hsecond|].
  assert (Hfile : w_file w1 = w_file w) by reflexivity. rewrite Hfile.
  replace (Z.to_nat (Z.min (pfi_size pfi - off) (l1 + l2)))
    with (Z.to_nat l1 + Z.to_nat (Z.min (pfi_size pfi - (off + l1)) l2))%nat
    by lia.
  replace (Z.to_nat (Z.min (pfi_size pfi - off) l1)) with (Z.to_nat l1) by lia.
  replace (Z.to_nat (pfi_start pfi + (off + l1)))
    with (Z.to_nat (pfi_start pfi + off) + Z.to_nat l1)%nat by lia.
  rewrite <- drop_drop. symmetry. apply take_take_drop.
Qed.

Lemma partfs_read_in_pieces_witness :
  exists r d w' r1 d1 w1 r2 d2 w2,
    partfs_read demo_session (2 + 3) 1 demo_world = (r, d, w') /\
    partfs_read demo_session 2 1 demo_world = (r1, d1, w1) /\
    partfs_read demo_session 3 (1 + 2) w1 = (r2, d2, w2) /\
    d = d1 ++ d2.
Proof.
  apply (partfs_read_in_pieces demo_session demo_world demo_open_file 1 2 3);
    first [ reflexivity | cbn; unfold C.OFF_MAX; lia ].
Defined.

(** X14.  What a read returns depends on the contents of the device file
    and on where the partition lies, not on the descriptor: two sessions on
    the same partition, whatever their descriptors and the file offsets
    these were left at, read the same bytes. *)
Theorem partfs_read_positioned (p1 p2 : partfs_file) (w1 w2 : world)
    (f1 f2 : open_file) (len off : Z) :
  w_fds w1 !! pfi_desc p1 = Some f1 ->
  w_fds w2 !! pfi_desc p2 = Some f2 ->
  readable f1 = true ->
  readable f2 = true ->
  pfi_start p1 = pfi_start p2 ->
  pfi_size p1 = pfi_size p2 ->
  w_file w1 = w_file w2 ->
  0 <= pfi_start p1 ->
  pfi_start p1 + pfi_size p1 <= C.OFF_MAX ->
  0 <= off <= pfi_size p1 ->
  snd (fst (partfs_read p1 len off w1)) = snd (fst (partfs_read p2 len off w2))
  /\
  (Z.min (pfi_size p1 - off) len <= C.INT_MAX ->
   fst (fst (partfs_read p1 len off w1)) = fst (fst (partfs_read p2 len off w2))).
Proof.
  intros Hf1 Hf2 Hr1 Hr2 Es Ez Efile Hstart Hend Hoff.
  rewrite (partfs_read_in_range p1 w1 f1 Hf1 Hstart Hend len off Hr1 Hoff).
  rewrite (partfs_read_in_range p2 w2 f2 Hf2) by (try assumption; lia).
  cbn zeta. cbn [fst snd]. rewrite <- Es, <- Ez, <- Efile.
  split; [reflexivity|]. intros Hmax.
  set (data := take (Z.to_nat (Z.min (pfi_size p1 - off) len))
                 (drop (Z.to_nat (pfi_start p1 + off)) (w_file w1))).
  assert (Hlen : (length data <= Z.to_nat (Z.min (pfi_size p1 - off) len))%nat)
    by apply take_length_le.
  rewrite to_int_id by (unfold C.INT_MAX in *; lia).
  destruct (Z.ltb_spec (Z.of_nat (length data)) 0); [lia | reflexivity].
Qed.

Lemma partfs_read_positioned_witness :
  snd (fst (partfs_read demo_session 5 1 demo_world))
    = snd (fst (partfs_read demo_session 5 1 (demo_world_with O_RDONLY)))
  /\
  (Z.min (pfi_size demo_session - 1) 5 <= C.INT_MAX ->
   fst (fst (partfs_read demo_session 5 1 demo_world))
     = fst (fst (partfs_read demo_session 5 1 (demo_world_with O_RDONLY)))).
Proof.
  apply (partfs_read_positioned demo_session demo_session demo_world
           (demo_world_with O_RDONLY) demo_open_file
           {| of_pos := 0; of_flags := O_RDONLY |} 5 1);
    first [ reflexivity | cbn; unfold C.OFF_MAX; lia ].
Defined.

(** X15.  Writing in two pieces leaves the device file as writing once
    does: [b1] at [o] and then [b2] at [o + len b1] give the contents that
    [b1 ++ b2] written at [o] gives. *)
Theorem partfs_write_in_pieces (pfi : partfs_file) (w : world)
    (f : open_file) (b1 b2 : list Byte.byte) (o : Z) :
  w_fds w !! pfi_desc pfi = Some f ->
  writable f = true ->
  0 <= pfi_start pfi ->
  pfi_start pfi + pfi_size pfi <= C.OFF_MAX ->
  0 <= o ->
  o + Z.of_nat (length b1) + Z.of_nat (length b2) <= pfi_size pfi ->
  exists r w' r1 w1 r2 w2,
    partfs_write pfi (b1 ++ b2) (Z.of_nat (length (b1 ++ b2))) o w = (r, w') /\
    partfs_write pfi b1 (Z.of_nat (length b1)) o w = (r1, w1) /\
    partfs_write pfi b2 (Z.of_nat (length b2)) (o + Z.of_nat (length b1)) w1
      = (r2, w2) /\
    w_file w2 = w_file w'.
Proof.
  intros Hfd Hwr Hstart Hend Ho Hfit.
  pose proof (partfs_write_in_range_any pfi w f Hfd Hstart Hend (b1 ++ b2)
                (Z.of_nat (length (b1 ++ b2))) o Hwr
                ltac:(lia)) as Hwhole.
  pose proof (partfs_write_in_range_any pfi w f Hfd Hstart Hend b1
                (Z.of_nat (length b1)) o Hwr ltac:(lia)) as Hfirst.
  cbn zeta in Hwhole, Hfirst.
  match type of Hfirst with _ = (_, ?x) => set (w1 := x) in * end.
  assert (Hfd1 : exists f1, w_fds w1 !! pfi_desc pfi = Some f1 /\
                            of_flags f1 = of_flags f).
  { subst w1. cbn [w_fds set_fd set_file log]. rewrite lookup_insert_eq.
    eexists. split; reflexivity. }
  destruct Hfd1 as (f1 & Hf1 & Hflags).
  assert (Hwr1 : writable f1 = true) by (unfold writable in *; by rewrite Hflags).
  assert (Happ1 : appending f1 = appending f)
    by (unfold appending; by rewrite Hflags).
  pose proof (partfs_write_in_range_any pfi w1 f1 Hf1 Hstart Hend b2
                (Z.of_nat (length b2)) (o + Z.of_nat (length b1)) Hwr1
                ltac:(lia)) as Hsecond.
  cbn zeta in Hsecond.
  eexists _, _, _, _, _, _.
  split; [exact Hwhole|]. split; [exact Hfirst|]. split; [exact Hsecond|].
  cbn [w_file set_fd set_file log].
  assert (Hfile : w_file w1 =
            write_at
              (Z.to_nat (if appending f then Z.of_nat (length (w_file w))
                         else pfi_start pfi + o))
              (take (Z.to_nat (Z.min (pfi_size pfi - o) (Z.of_nat (length b1)))) b1)
              (w_file w))
    by (subst w1; cbn [w_file set_fd set_file log]; apply write_at_landing).
  rewrite !write_at_landing, Hfile, Happ1.
  rewrite !take_ge by (rewrite ?length_app; lia).
  destruct (appending f).
  - rewrite Nat2Z.id, write_at_end, Nat2Z.id, !write_at_end.
    by rewrite app_assoc.
  - replace (Z.to_nat (pfi_start pfi + (o + Z.of_nat (length b1))))
      with (Z.to_nat (pfi_start pfi + o) + length b1)%nat by lia.
    apply write_at_app.
Qed.

Lemma partfs_write_in_pieces_witness :
  exists r w' r1 w1 r2 w2,
    partfs_write demo_session ([Byte.xaa] ++ [Byte.xbb; Byte.xcc])
      (Z.of_nat (length ([Byte.xaa] ++ [Byte.xbb; Byte.xcc]))) 5 demo_world
      = (r, w') /\
    partfs_write demo_session [Byte.xaa] (Z.of_nat (length [Byte.xaa])) 5
      demo_world = (r1, w1) /\
    partfs_write demo_session [Byte.xbb; Byte.xcc]
      (Z.of_nat (length [Byte.xbb; Byte.xcc]))
      (5 + Z.of_nat (length [Byte.xaa])) w1 = (r2, w2) /\
    w_file w2 = w_file w'.
Proof.
  apply (partfs_write_in_pieces demo_session demo_world demo_open_file
           [Byte.xaa] [Byte.xbb; Byte.xcc] 5);
    first [ reflexivity | cbn; unfold C.OFF_MAX; lia ].
Defined.

(** ** Lookup and listing together *)

Lemma canonical_path_not_root n : String.eqb (canonical_path n) "/" = false.
Proof. reflexivity. Qed.

Lemma parse_canonical_path_large n :
  2 ^ 63 <= n <= C.SIZE_MAX ->
  __partfs_parse_path (canonical_path n) = n - 2 ^ 64.
Proof.
  intros Hn.
  assert (Hn' : 0 <= n <= C.SIZE_MAX) by lia.
  rewrite (parse_scanned _ _ _ _ (canonical_path_scanned n Hn')).
  unfold scanned_value. destruct (print_zu_spec n Hn') as (_ & _ & ->).
  cbn [String.eqb]. unfold Scanf.strtoul_value.
  replace (C.SIZE_MAX <? n) with false by (symmetry; apply Z.ltb_ge; lia).
  unfold C.to_ssize_t, C.wrap_signed, C.SIZE_MAX in *.
  change (2 ^ (64 - 1)) with (2 ^ 63).
  replace (n + 2 ^ 63) with (n - 2 ^ 63 + 1 * 2 ^ 64) by lia.
  rewrite Z.mod_add by lia. rewrite Z.mod_small by lia. lia.
Qed.

Lemma partfs_getattr_negative pdev path :
  __partfs_parse_path path < 0 -> path <> "/" ->
  partfs_getattr pdev path = (- C.ENOENT, None).
Proof.
  intros Hp Hroot. unfold partfs_getattr.
  destruct (String.eqb_spec path "/"); [done|].
  replace (_ >=? 0) with false; [reflexivity|].
  symmetry. rewrite Z.geb_leb. apply Z.leb_gt. lia.
Qed.

(** X16.  A partition number of 2^63 or more cannot be looked up: the
    canonical name decodes to the negative [ssize_t] the number wraps to,
    and getattr answers [-ENOENT] whether or not the table holds a
    partition of that number. *)
Theorem partfs_getattr_number_too_large (pdev : partfs_device) (n : Z) :
  2 ^ 63 <= n <= C.SIZE_MAX ->
  __partfs_parse_path (canonical_path n) = n - 2 ^ 64 /\
  partfs_getattr pdev (canonical_path n) = (- C.ENOENT, None).
Proof.
  intros Hn. pose proof (parse_canonical_path_large n Hn) as Hp.
  split; [exact Hp|]. apply partfs_getattr_negative; [|discriminate].
  unfold C.SIZE_MAX in Hn. lia.
Qed.

Lemma partfs_getattr_number_too_large_witness :
  __partfs_parse_path (canonical_path (2 ^ 63)) = 2 ^ 63 - 2 ^ 64 /\
  partfs_getattr demo_device (canonical_path (2 ^ 63)) = (- C.ENOENT, None).
Proof.
  apply (partfs_getattr_number_too_large demo_device (2 ^ 63)).
  unfold C.SIZE_MAX. lia.
Defined.

Lemma fdisk_get_partition_NoDup ctx pa :
  In pa (cxt_table ctx) ->
  NoDup (map pa_partno (cxt_table ctx)) ->
  fdisk_get_partition ctx (pa_partno pa) = Some pa.
Proof.
  unfold fdisk_get_partition. generalize (cxt_table ctx). intros l.
  induction l as [|q l IH]; intros Hin Hnd; [destruct Hin|].
  cbn [find map] in *. apply NoDup_cons in Hnd as [Hq Hnd].
  destruct Hin as [-> | Hin].
  - by rewrite Z.eqb_refl.
  - destruct (Z.eqb_spec (pa_partno q) (pa_partno pa)) as [E | _];
      [|by apply IH].
    exfalso. apply Hq. rewrite E. apply list_elem_of_In, in_map. exact Hin.
Qed.

(** X17.  Listing and lookup agree: when the partition numbers of the table
    are distinct and below 10^10, every partition entry that readdir hands
    out can be looked up under its name, and getattr returns 0 with exactly
    the metadata the entry carried; the entry [.] carries what getattr
    returns for the root. *)
Theorem partfs_readdir_getattr_agree (pdev : partfs_device) :
  (forall pa, In pa (cxt_table (pdev_ctx pdev)) ->
              0 <= pa_partno pa < 10 ^ 10) ->
  NoDup (map pa_partno (cxt_table (pdev_ctx pdev))) ->
  In (".", snd (partfs_getattr pdev "/")) (snd (partfs_readdir pdev "/" []))
  /\
  (forall name st,
     In (name, st) (snd (partfs_readdir pdev "/" [])) ->
     name <> "." -> name <> ".." ->
     partfs_getattr pdev ("/" +:+ name) = (0, st)).
Proof.
  intros Hrange Hnd.
  assert (Hrun : snd (partfs_readdir pdev "/" []) =
    (".", Some (__partfs_stat (Z.lor S_IFDIR MODE_0755) 2 0 (pdev_st pdev)))
    :: ("..", None)
    :: map (fun pa =>
              (partfs_name (pa_partno pa),
               Some (__partfs_stat (st_mode (pdev_st pdev)) 1
                       (__fdisk_partition_get_size (pdev_ctx pdev) (Some pa))
                       (pdev_st pdev))))
         (cxt_table (pdev_ctx pdev))).
  { unfold partfs_readdir. cbn [String.eqb Ascii.eqb Bool.eqb andb snd].
    rewrite partfs_readdir_loop_map. reflexivity. }
  rewrite Hrun. split; [by left|].
  intros name st [E | [E | Hin]] Hdot Hdotdot; [congruence | congruence |].
  apply in_map_iff in Hin as (pa & E & Hpa). injection E as <- <-.
  pose proof (Hrange pa Hpa) as Hpn.
  rewrite partfs_getattr_parsed by (rewrite parse_partfs_name by done; lia).
  rewrite parse_partfs_name by done.
  by rewrite (fdisk_get_partition_NoDup _ pa Hpa Hnd).
Qed.

Lemma partfs_readdir_getattr_agree_witness :
  In (".", snd (partfs_getattr demo_device "/"))
     (snd (partfs_readdir demo_device "/" []))
  /\
  (forall name st,
     In (name, st) (snd (partfs_readdir demo_device "/" [])) ->
     name <> "." -> name <> ".." ->
     partfs_getattr demo_device ("/" +:+ name) = (0, st)).
Proof.
  apply (partfs_readdir_getattr_agree demo_device).
  - intros pa [<- | []]. cbn. lia.
  - cbn. repeat constructor. rewrite list_elem_of_In. intros [].
Defined.

(** ** Setting the device up and tearing it down *)

Import Mount.

(** X18.  [partfs_open_device] either succeeds or leaves nothing behind.
    It returns 0 exactly when [realpath], [stat], [fdisk_new_context] and
    [fdisk_assign_device] all succeed; the device then holds the absolute
    path, the stat of the device file and the parsed table, and the process
    holds one path buffer, one context and one assigned device more.  In
    every other case it returns a negative errno: that of the first step
    that failed, [-ENOMEM] when no context could be made; name and ctx are
    [NULL], and every buffer and context acquired on the way has been given
    back. *)
Theorem partfs_open_device_outcome (h : host) (device : string)
    (pdev pdev' : device_slot) (p p' : process) (err : Z) :
  partfs_open_device h device pdev p = (err, pdev', p') ->
  (err = 0 /\
   exists name st ctx,
     h_realpath h device = inr name /\
     h_stat h name = inr st /\
     h_new_context h = true /\
     h_assign_device h name = inr ctx /\
     mounted pdev' =
       Some {| pdev_name := name; pdev_ctx := ctx; pdev_st := st |} /\
     p_names p' = S (p_names p) /\
     p_contexts p' = S (p_contexts p) /\
     p_assigned p' = S (p_assigned p))
  \/
  (err < 0 /\
   ((exists e, h_realpath h device = inl e /\ err = - Z.pos e) \/
    (exists name e,
       h_realpath h device = inr name /\ h_stat h name = inl e /\
       err = - Z.pos e) \/
    (exists name st,
       h_realpath h device = inr name /\ h_stat h name = inr st /\
       h_new_context h = false /\ err = - C.ENOMEM) \/
    (exists name st e,
       h_realpath h device = inr name /\ h_stat h name = inr st /\
       h_new_context h = true /\ h_assign_device h name = inl e /\
       err = - Z.pos e)) /\
   (forall name st ctx,
      h_realpath h device = inr name -> h_stat h name = inr st ->
      h_new_context h = true -> h_assign_device h name = inr ctx -> False) /\
   slot_name pdev' = None /\
   slot_ctx pdev' = None /\
   mounted pdev' = None /\
   p_names p' = p_names p /\
   p_contexts p' = p_contexts p /\
   p_assigned p' = p_assigned p).
Proof.
  unfold partfs_open_device, realpath, sys_stat, fdisk_new_context,
    fdisk_assign_device.
  intros H.
  destruct (h_realpath h device) as [e | name] eqn:Hreal.
  { injection H as <- <- <-. right. cbn.
    split; [lia|]. split; [left; by exists e|].
    repeat split; try (intros; congruence). }
  destruct (h_stat h name) as [e | st] eqn:Hstat.
  { cbn in H. injection H as <- <- <-. right. cbn.
    split; [lia|]. split; [right; left; by exists name, e|].
    repeat split; try (intros; congruence). }
  cbn [Z.eqb] in H.
  destruct (h_new_context h) eqn:Hnew.
  2:{ cbn in H. injection H as <- <- <-. right. cbn.
      split; [unfold C.ENOMEM; lia|].
      split; [right; right; left; by exists name, st|].
      repeat split; try (intros; congruence). }
  destruct (h_assign_device h name) as [e | ctx] eqn:Hassign.
  { cbn in H. injection H as <- <- <-. right. cbn.
    split; [lia|]. split; [right; right; right; by exists name, st, e|].
    repeat split; try (intros; congruence). }
  cbn in H. injection H as <- <- <-. left. split; [reflexivity|].
  exists name, st, ctx. cbn. repeat split; assumption.
Qed.

Lemma partfs_open_device_outcome_witness :
  (0 = 0 /\
   exists name st ctx,
     h_realpath demo_host "disk.image" = inr name /\
     h_stat demo_host name = inr st /\
     h_new_context demo_host = true /\
     h_assign_device demo_host name = inr ctx /\
     mounted (snd (fst (partfs_open_device demo_host "disk.image" demo_slot
                          demo_process))) =
       Some {| pdev_name := name; pdev_ctx := ctx; pdev_st := st |} /\
     p_names (snd (partfs_open_device demo_host "disk.image" demo_slot
                     demo_process)) = S (p_names demo_process) /\
     p_contexts (snd (partfs_open_device demo_host "disk.image" demo_slot
                        demo_process)) = S (p_contexts demo_process) /\
     p_assigned (snd (partfs_open_device demo_host "disk.image" demo_slot
                        demo_process)) = S (p_assigned demo_process))
  \/
  (0 < 0 /\
   ((exists e, h_realpath demo_host "disk.image" = inl e /\ 0 = - Z.pos e) \/
    (exists name e,
       h_realpath demo_host "disk.image" = inr name /\
       h_stat demo_host name = inl e /\
       0 = - Z.pos e) \/
    (exists name st,
       h_realpath demo_host "disk.image" = inr name /\
       h_stat demo_host name = inr st /\
       h_new_context demo_host = false /\ 0 = - C.ENOMEM) \/
    (exists name st e,
       h_realpath demo_host "disk.image" = inr name /\
       h_stat demo_host name = inr st /\
       h_new_context demo_host = true /\
       h_assign_device demo_host name = inl e /\
       0 = - Z.pos e)) /\
   (forall name st ctx,
      h_realpath demo_host "disk.image" = inr name ->
      h_stat demo_host name = inr st ->
      h_new_context demo_host = true ->
      h_assign_device demo_host name = inr ctx -> False) /\
   slot_name (snd (fst (partfs_open_device demo_host "disk.image" demo_slot
                          demo_process))) = None /\
   slot_ctx (snd (fst (partfs_open_device demo_host "disk.image" demo_slot
                         demo_process))) = None /\
   mounted (snd (fst (partfs_open_device demo_host "disk.image" demo_slot
                        demo_process))) = None /\
   p_names (snd (partfs_open_device demo_host "disk.image" demo_slot
                   demo_process)) = p_names demo_process /\
   p_contexts (snd (partfs_open_device demo_host "disk.image" demo_slot
                      demo_process)) = p_contexts demo_process /\
   p_assigned (snd (partfs_open_device demo_host "disk.image" demo_slot
                      demo_process)) = p_assigned demo_process).
Proof.
  apply (partfs_open_device_outcome demo_host "disk.image" demo_slot _
           demo_process _ 0).
  reflexivity.
Defined.

(** X19.  What [partfs_open_device] acquires, [partfs_destroy] gives back:
    after a successful set-up followed by the tear-down the process holds
    as many path buffers, contexts and assigned devices as before. *)
Theorem partfs_open_device_destroy (h : host) (device : string)
    (pdev pdev' : device_slot) (p p' : process) :
  partfs_open_device h device pdev p = (0, pdev', p') ->
  p_names (partfs_destroy pdev' p') = p_names p /\
  p_contexts (partfs_destroy pdev' p') = p_contexts p /\
  p_assigned (partfs_destroy pdev' p') = p_assigned p.
Proof.
  unfold partfs_open_device, realpath, sys_stat, fdisk_new_context,
    fdisk_assign_device.
  intros H.
  destruct (h_realpath h device) as [e | name]; [injection H; lia|].
  destruct (h_stat h name) as [e | st]; [cbn in H; injection H; lia|].
  cbn [Z.eqb] in H.
  destruct (h_new_context h); [|cbn in H; injection H; discriminate].
  destruct (h_assign_device h name) as [e | ctx];
    [cbn in H; injection H; lia|].
  cbn in H. injection H as <- <-. cbn. repeat split.
Qed.

Lemma partfs_open_device_destroy_witness :
  p_names
    (partfs_destroy
       (snd (fst (partfs_open_device demo_host "disk.image" demo_slot
                    demo_process)))
       (snd (partfs_open_device demo_host "disk.image" demo_slot
               demo_process))) = p_names demo_process /\
  p_contexts
    (partfs_destroy
       (snd (fst (partfs_open_device demo_host "disk.image" demo_slot
                    demo_process)))
       (snd (partfs_open_device demo_host "disk.image" demo_slot
               demo_process))) = p_contexts demo_process /\
  p_assigned
    (partfs_destroy
       (snd (fst (partfs_open_device demo_host "disk.image" demo_slot
                    demo_process)))
       (snd (partfs_open_device demo_host "disk.image" demo_slot
               demo_process))) = p_assigned demo_process.
Proof.
  apply (partfs_open_device_destroy demo_host "disk.image" demo_slot _
           demo_process _).
  reflexivity.
Defined.

(** ** The metadata-only variant beside the current one *)

Lemma digits_value_nonneg ds acc :
  string_forall Scanf.isdigit ds = true -> 0 <= acc ->
  0 <= digits_value ds acc.
Proof.
  revert acc. induction ds as [|c ds IH]; intros acc Hds Hacc; [exact Hacc|].
  cbn in Hds. apply andb_prop in Hds as [Hc Hds].
  cbn [digits_value]. apply IH; [assumption|].
  pose proof (digit_value_range c Hc). lia.
Qed.

(** What [%zu] stores is a [size_t]. *)
Lemma scan_zu_range s v k rest :
  Scanf.scan_zu s = Scanf.Matched v k rest -> 0 <= v <= C.SIZE_MAX.
Proof.
  intros H. apply scan_zu_inv in H
    as (ws & sg & ds & _ & _ & _ & _ & Hds & _ & -> & _).
  pose proof (digits_value_nonneg ds 0 Hds ltac:(lia)) as Hm.
  unfold scanned_value, Scanf.strtoul_value.
  destruct (Z.ltb_spec C.SIZE_MAX (digits_value ds 0)); [unfold C.SIZE_MAX; lia|].
  destruct (String.eqb sg "-"); [|lia].
  unfold C.to_size_t, C.wrap_unsigned, C.SIZE_MAX.
  pose proof (Z.mod_pos_bound (- digits_value ds 0) (2 ^ 64) ltac:(lia)). lia.
Qed.

Lemma size_t_of_ssize_t v :
  0 <= v <= C.SIZE_MAX -> C.to_size_t (C.to_ssize_t v) = v.
Proof.
  intros Hv. unfold C.to_size_t, C.to_ssize_t, C.wrap_unsigned, C.wrap_signed,
    C.SIZE_MAX in *.
  change (2 ^ (64 - 1)) with (2 ^ 63).
  rewrite Zminus_mod_idemp_l.
  replace (v + 2 ^ 63 - 2 ^ 63) with v by lia. apply Z.mod_small. lia.
Qed.

Lemma minimal_getattr_unfold mdev path :
  Minimal.partfs_getattr mdev path =
    if String.eqb path "/" then
      (0, Some (__partfs_stat (Z.lor S_IFDIR MODE_0755) 2 0
                  (Minimal.pfsdev_st mdev)))
    else
      match strip_prefix "/part_" path with
      | Some rest0 =>
          match Scanf.scan_zu rest0 with
          | Scanf.Matched v k _ =>
              if C.to_int (6 + k) =? C.to_int (C.strlen path) then
                (0, Some (__partfs_stat (Z.lor S_IFREG Minimal.MODE_0644) 1
                            (__fdisk_partition_get_size
                               (Minimal.pfsdev_ctx mdev)
                               (fdisk_get_partition
                                  (Minimal.pfsdev_ctx mdev) v))
                            (Minimal.pfsdev_st mdev)))
              else (- C.ENOENT, None)
          | _ => (- C.ENOENT, None)
          end
      | None => (- C.ENOENT, None)
      end.
Proof.
  unfold Minimal.partfs_getattr, Scanf.sscanf, partfs_path_format.
  destruct (String.eqb path "/"); [reflexivity|].
  change ("/" +:+ PARTFS_NAME_PREFIX) with "/part_".
  destruct (strip_prefix "/part_" path) as [rest0|] eqn:Hp.
  - apply strip_prefix_Some in Hp. rewrite Hp at 1.
    rewrite run_literal_app. cbn [Scanf.run].
    destruct (Scanf.scan_zu rest0) as [| |v k rest]; reflexivity.
  - destruct (run_literal_mismatch "/part_" [Scanf.Conv_zu; Scanf.Conv_n]
                path 0 {| Scanf.arg_n := None; Scanf.arg_c := None |} Hp)
      as (r & -> & _).
    reflexivity.
Qed.

(** The variant finds every name of the scanned shape, whatever its
    number. *)
Lemma minimal_getattr_scanned mdev path ws sg ds :
  scanned_name path ws sg ds ->
  fst (Minimal.partfs_getattr mdev path) = 0.
Proof.
  intros (-> & Hws & Hsg & Hne & Hds).
  rewrite minimal_getattr_unfold.
  replace (String.eqb ("/part_" +:+ ws +:+ sg +:+ ds) "/") with false
    by reflexivity.
  rewrite strip_prefix_app.
  rewrite <- (append_nil_r ds) at 1.
  rewrite scan_zu_app by (try assumption; exact I).
  rewrite !strlen_append. change (C.strlen "/part_") with 6.
  unfold C.strlen.
  match goal with |- context [C.to_int ?a =? C.to_int ?b] =>
    replace b with a by lia end.
  by rewrite Z.eqb_refl.
Qed.

(** X20.  The metadata-only variant and the current getattr, on the same
    device file.  Whenever the current getattr finds a path, so does the
    variant, with the same record except that a partition entry has mode
    [S_IFREG | 0644] instead of the mode of the device file; whenever the
    variant answers [-ENOENT], so does the current one.  They differ on the
    numbers from 2^63 on: the variant keeps the number as a [size_t] and
    finds the canonical name, the current one converts it to an [ssize_t]
    and answers [-ENOENT]. *)
Theorem minimal_getattr_beside_current (pdev : partfs_device)
    (path : string) :
  (forall st,
     partfs_getattr pdev path = (0, Some st) ->
     Minimal.partfs_getattr (minimal_device pdev) path =
       (0, Some (with_mode
                   (if String.eqb path "/" then st_mode st
                    else Z.lor S_IFREG Minimal.MODE_0644) st)))
  /\
  (Minimal.partfs_getattr (minimal_device pdev) path = (- C.ENOENT, None) ->
   partfs_getattr pdev path = (- C.ENOENT, None))
  /\
  (forall n,
     2 ^ 63 <= n <= C.SIZE_MAX -> path = canonical_path n ->
     fst (Minimal.partfs_getattr (minimal_device pdev) path) = 0 /\
     partfs_getattr pdev path = (- C.ENOENT, None)).
Proof.
  split; [|split].
  - rewrite minimal_getattr_unfold.
    cbn [minimal_device Minimal.pfsdev_st Minimal.pfsdev_ctx].
    unfold partfs_getattr. rewrite parse_path_unfold.
    destruct (String.eqb path "/").
    { intros st [= <-]. reflexivity. }
    destruct (strip_prefix "/part_" path) as [rest0|]; [|intros st [=]].
    destruct (Scanf.scan_zu rest0) as [| |v k rest] eqn:Hzu;
      [intros st [=] | intros st [=] |].
    destruct (C.to_int (6 + k) =? C.to_int (C.strlen path));
      [|intros st [=]].
    destruct (C.to_ssize_t v >=? 0); [|intros st [=]].
    intros st [= <-].
    rewrite size_t_of_ssize_t by (by apply scan_zu_range in Hzu).
    reflexivity.
  - rewrite minimal_getattr_unfold.
    intros H. destruct (String.eqb_spec path "/") as [Heq | Hroot];
      [discriminate H|].
    apply partfs_getattr_rejected; [|assumption].
    rewrite parse_path_unfold.
    destruct (strip_prefix "/part_" path) as [rest0|]; [|reflexivity].
    destruct (Scanf.scan_zu rest0) as [| |v k rest]; try reflexivity.
    destruct (C.to_int (6 + k) =? C.to_int (C.strlen path));
      [discriminate H | reflexivity].
  - intros n Hn ->.
    assert (Hn' : 0 <= n <= C.SIZE_MAX) by lia.
    split.
    + exact (minimal_getattr_scanned _ _ _ _ _ (canonical_path_scanned n Hn')).
    + apply partfs_getattr_negative; [|discriminate].
      rewrite parse_canonical_path_large by assumption.
      unfold C.SIZE_MAX in Hn. lia.
Qed.

Lemma minimal_readdir_loop_map mdev it buf :
  Minimal.partfs_readdir_loop mdev it buf =
    buf ++
    map (fun pa =>
           (partfs_name (pa_partno pa),
            Some (__partfs_stat (Z.lor S_IFREG Minimal.MODE_0644) 1
                    (__fdisk_partition_get_size (Minimal.pfsdev_ctx mdev)
                       (Some pa))
                    (Minimal.pfsdev_st mdev))))
        it.
Proof.
  revert buf. induction it as [|pa it IH]; intros buf.
  - cbn. by rewrite app_nil_r.
  - cbn [Minimal.partfs_readdir_loop map]. rewrite IH. unfold fill.
    by rewrite <- app_assoc.
Qed.

(** X21.  The metadata-only variant and the current readdir, on the same
    device file.  On the root both return 0 and hand out the same names in
    the same order, with the same metadata up to the mode.  On any other
    path neither hands out anything; the variant fails with [-EIO], the
    current one with [-ENOENT]. *)
Theorem minimal_readdir_beside_current (pdev : partfs_device)
    (path : string) (buf : list dirent) :
  (path <> "/" ->
   Minimal.partfs_readdir (minimal_device pdev) path buf = (- C.EIO, buf) /\
   partfs_readdir pdev path buf = (- C.ENOENT, buf))
  /\
  (path = "/" ->
   fst (Minimal.partfs_readdir (minimal_device pdev) path buf) = 0 /\
   fst (partfs_readdir pdev path buf) = 0 /\
   map (fun e : dirent => (fst e, with_mode 0 <$> snd e))
     (snd (Minimal.partfs_readdir (minimal_device pdev) path buf)) =
   map (fun e : dirent => (fst e, with_mode 0 <$> snd e))
     (snd (partfs_readdir pdev path buf))).
Proof.
  split.
  - intros Hroot. unfold Minimal.partfs_readdir, partfs_readdir.
    by destruct (String.eqb_spec path "/").
  - intros ->. unfold Minimal.partfs_readdir, partfs_readdir.
    cbn [String.eqb Ascii.eqb Bool.eqb andb fst snd].
    split; [reflexivity|]. split; [reflexivity|].
    rewrite minimal_readdir_loop_map, partfs_readdir_loop_map.
    unfold fdisk_get_partitions. rewrite !map_app, !map_map.
    reflexivity.
Qed.
